(** * getgridoperators: text helpers, category filters, graph fetcher, LLM seeds

    A shallow embedding of the Python sources

      - [src/utils/text.py]           (module [Text])
      - [src/pipeline/filter.py]      (module [Filter])
      - [src/sources/wikidata.py]     (module [Wikidata])
      - [scripts/run_ggc_llm_seeds.py] (module [Seeds])

    together with the properties the specification states about them. *)

From Stdlib Require Import Floats.
From stdpp Require Import gmap strings list.

Set Warnings "-register-all,-inexact-float".

Open Scope N_scope.

(** ** Python values shared by all modules *)

(** A Python [str] is a sequence of Unicode code points. *)
Abbreviation char := N (only parsing).
Abbreviation str := (list N) (only parsing).

(** Source literals are ASCII; [py "..."] is the [str] with these characters. *)
Definition py (s : string) : str :=
  Ascii.N_of_ascii <$> String.list_ascii_of_string s.

(** The exceptions the modelled code can raise.  [TransportError] stands for
    whatever [requests] raises on a failed GET (connection error, timeout,
    HTTP error status, undecodable body), told apart by a code. *)
Inductive exn :=
| AttributeError
| TypeError
| ValueError (msg : str)
| TransportError (code : N).

(** Outcome of a Python call: a value or a raised exception. *)
Inductive result (A : Type) :=
| Ok (a : A)
| Raise (e : exn).
Arguments Ok {A} a.
Arguments Raise {A} e.

(** [x ← r; k] on results: the first exception raised is the outcome. *)
#[global] Instance result_ret : MRet result := @Ok.
#[global] Instance result_bind : MBind result :=
  λ A B k r, match r with Ok a => k a | Raise e => Raise e end.

(** ** Effects: the external service, the clock, exceptions

    The scripts are sequential.  Their effects are calls to one external
    service (the SPARQL endpoint, or the LLM client), [time.sleep] and raised
    exceptions.  A [World] records how many calls were made and the pauses
    taken, oldest first; a computation threads it and ends in a [result]. *)
Record World := mkWorld {
  calls : nat;
  slept : list float;
}.

Definition M (A : Type) : Type := World → World * result A.

Definition ret {A} (a : A) : M A := λ w, (w, Ok a).
Definition raise {A} (e : exn) : M A := λ w, (w, Raise e).
Definition bind {A B} (k : A → M B) (m : M A) : M B :=
  λ w, match m w with
       | (w', Ok a) => k a w'
       | (w', Raise e) => (w', Raise e)
       end.

(** With these instances [x ← m; k] runs [m], then [k] on its value; a raised
    exception ends the computation. *)
#[global] Instance M_ret : MRet M := @ret.
#[global] Instance M_bind : MBind M := @bind.

(** [try: m  except Exception as e: h e] *)
Definition catch {A} (m : M A) (h : exn → M A) : M A :=
  λ w, match m w with
       | (w', Ok a) => (w', Ok a)
       | (w', Raise e) => h e w'
       end.

(** A pure step that may raise, run inside a computation. *)
Definition lift {A} (r : result A) : M A := λ w, (w, r).

(** [for a in l: s = f s a], with effects. *)
Fixpoint foldM {A S} (f : S → A → M S) (s : S) (l : list A) : M S :=
  match l with
  | [] => mret s
  | a :: l' => s' ← f s a; foldM f s' l'
  end.

(** [time.sleep(d)] *)
Definition sleep (d : float) : M unit :=
  λ w, ({| calls := calls w; slept := slept w ++ [d] |}, Ok tt).

(** One call to the external service [service]: the answer may depend on the
    request and on how many calls came before. *)
Definition call {Q A} (service : nat → Q → result A) (q : Q) : M A :=
  λ w, ({| calls := S (calls w); slept := slept w |}, service (calls w) q).

(** An [int] used as a [float] operand. *)
Definition float_of_nat (n : nat) : float :=
  PrimFloat.of_uint63 (Uint63.of_Z (Z.of_nat n)).

(** ** src/utils/text.py *)
Module Text.

(** [Py_UNICODE_ISSPACE]: the test behind [str.strip()] and the regular
    expression class [\s] on [str] patterns. *)
Definition isspace (c : char) : bool :=
  ((0x09 <=? c) && (c <=? 0x0D)) || ((0x1C <=? c) && (c <=? 0x20))
  || (c =? 0x85) || (c =? 0xA0) || (c =? 0x1680)
  || ((0x2000 <=? c) && (c <=? 0x200A))
  || (c =? 0x2028) || (c =? 0x2029) || (c =? 0x202F) || (c =? 0x205F)
  || (c =? 0x3000).

(** The parts of the Unicode character database the code reads through
    [str.lower], [unicodedata.normalize("NFKD", _)], [unicodedata.combining]
    and the class [\w] ([Py_UNICODE_ISALNUM] or underscore). *)
Class UnicodeDB := {
  str_lower : str → str;
  nfkd : str → str;
  combining : char → N;
  isalnum : char → bool;
}.

Definition is_ascii (c : char) : bool := c <? 128.

Definition ascii_lower_char (c : char) : char :=
  if (0x41 <=? c) && (c <=? 0x5A) then c + 32 else c.

Definition ascii_isalnum (c : char) : bool :=
  ((0x30 <=? c) && (c <=? 0x39)) || ((0x41 <=? c) && (c <=? 0x5A))
  || ((0x61 <=? c) && (c <=? 0x7A)).

(** The database on the ASCII block U+0000..U+007F: only A-Z have a lower
    case, NFKD changes nothing, no character is combining, and the
    alphanumerics are the digits and the letters.  Concrete runs below are on
    ASCII text and use this instance. *)
Definition ascii_block : UnicodeDB := {|
  str_lower := fmap ascii_lower_char;
  nfkd := id;
  combining := λ _, 0;
  isalnum := ascii_isalnum;
|}.

(** Text made of ASCII characters only. *)
Definition ascii_text (s : str) : Prop := forallb is_ascii s = true.

(** A database agrees with Python's on ASCII text when it agrees with
    [ascii_block] there. *)
Record AsciiCompatible (U : UnicodeDB) : Prop := {
  lower_ascii : ∀ s, forallb is_ascii s = true → str_lower s = ascii_lower_char <$> s;
  nfkd_ascii : ∀ s, forallb is_ascii s = true → nfkd s = s;
  combining_ascii : ∀ c, is_ascii c = true → combining c = 0;
  isalnum_ascii : ∀ c, is_ascii c = true → isalnum c = ascii_isalnum c;
}.

(** [s.lstrip()], [s.rstrip()], [s.strip()] *)
Fixpoint lstrip (s : str) : str :=
  match s with
  | c :: s' => if isspace c then lstrip s' else s
  | [] => []
  end.

Definition rstrip (s : str) : str := reverse (lstrip (reverse s)).

Definition strip (s : str) : str := rstrip (lstrip s).

(** [s] is empty or consists of whitespace only. *)
Definition blank (s : str) : Prop := forallb isspace s = true.

(** [re.sub(r"\s+", " ", s)]: every maximal run of whitespace becomes one
    space; [in_run] tells that the previous character was whitespace. *)
Fixpoint sub_ws_from (in_run : bool) (s : str) : str :=
  match s with
  | [] => []
  | c :: s' =>
      if isspace c
      then (if in_run then sub_ws_from true s' else 0x20 :: sub_ws_from true s')
      else c :: sub_ws_from false s'
  end.

Definition sub_ws (s : str) : str := sub_ws_from false s.

Section Normalize.
Context {U : UnicodeDB}.

(** The class [[\w\s&.-]]: what [re.sub(r"[^\w\s&.-]", "", s)] keeps. *)
Definition kept (c : char) : bool :=
  isalnum c || (c =? 0x5F) || isspace c || (c =? 0x26) || (c =? 0x2E) || (c =? 0x2D).

Definition normalize_name (s : str) : str :=
  let s := str_lower (strip s) in
  let s := nfkd s in
  let s := filter (λ ch, combining ch = 0) s in
  let s := sub_ws s in
  let s := filter (λ ch, kept ch) s in
  strip s.

End Normalize.

(** [k in text] on strings: [text] starts with [k], or contains it further on. *)
Fixpoint startswith (k text : str) : bool :=
  match k, text with
  | [], _ => true
  | a :: k', b :: text' => (a =? b) && startswith k' text'
  | _ :: _, [] => false
  end.

Fixpoint contains (k text : str) : bool :=
  startswith k text ||
  match text with
  | [] => false
  | _ :: text' => contains k text'
  end.

(** [k] is a substring of [text]. *)
Definition occurs_in (k text : str) : Prop :=
  ∃ pre suf, text = pre ++ k ++ suf.

(** Modelled from the spec: [normalize_for_match], which the fetcher and the
    seed script import from [src/utils/text.py], is not defined in that file.
    The spec (4.1, Text Normalizer) gives it as: trim; lower-case;
    Unicode-decompose and strip combining marks; collapse any run of
    whitespace to a single space; remove all characters except word
    characters, whitespace, [&], [.], [-]; trim again. *)
Definition normalize_for_match {U : UnicodeDB} (text : str) : str :=
  let trimmed := strip text in
  let lowered := str_lower trimmed in
  let folded := filter (λ ch, combining ch = 0) (nfkd lowered) in
  let collapsed := sub_ws folded in
  let cleaned := filter (λ ch, kept ch) collapsed in
  strip cleaned.

(** A row is a [dict] whose values are a [str] or [None]. *)
Abbreviation row := (gmap string (option str)) (only parsing).

(** [r.get(f)]: [None] when the field is absent, its value otherwise. *)
Definition get (r : row) (f : string) : option str := mjoin (r !! f).

(** [r.get(f) or ""] *)
Definition get_or_empty (r : row) (f : string) : str := default [] (get r f).

(** A field that [(r.get(f) or "").strip()] reads as [""]: the key is
    absent, or its value is [None], or a string that is empty or whitespace
    only. *)
Definition blank_field (v : option (option str)) : Prop :=
  match v with
  | Some (Some s) => blank s
  | _ => True
  end.

(** [tuple((r.get(f) or "").strip() for f in key_fields)] *)
Definition row_key (key_fields : list string) (r : row) : list str :=
  (λ f, strip (get_or_empty r f)) <$> key_fields.

(** The loop of [dedupe_rows], started with the keys [seen] so far; the
    result is what the loop appends to [out], in order. *)
Fixpoint dedupe_loop (key_fields : list string) (seen : gset (list str))
    (rows : list row) : list row :=
  match rows with
  | [] => []
  | r :: rows' =>
      let key := row_key key_fields r in
      if decide (key ∈ seen) then dedupe_loop key_fields seen rows'
      else r :: dedupe_loop key_fields ({[key]} ∪ seen) rows'
  end.

Definition dedupe_rows (rows : list row) (key_fields : list string) : list row :=
  dedupe_loop key_fields ∅ rows.

End Text.

(** ** src/pipeline/filter.py *)
Module Filter.
Import Text.

(** [any(k in text for k in ks)] *)
Definition any_in (ks : list str) (text : str) : bool :=
  existsb (λ k, contains k text) ks.

(** The keyword lists of [filter_relevant]; the last TSO keyword is written
    ["tsO".lower()] in the source. *)
Definition tso_keywords : list str :=
  [py "transmission"; py "system operator"; py "grid operator"; py "tso"].
Definition regulator_keywords : list str :=
  [py "regulator"; py "regulatory"; py "commission"; py "authority"].
Definition ministry_keywords : list str :=
  [py "ministry"; py "department"].

(** The value [filter_relevant] assigns to [keep] for a record whose
    [category] field reads [category] ([None] when absent) and whose
    lower-cased label and description give [text]. *)
Definition keep (category : option str) (text : str) : bool :=
  if decide (category = Some (py "TSO")) then any_in tso_keywords text
  else if decide (category = Some (py "Regulator")) then any_in regulator_keywords text
  else if decide (category = Some (py "Ministry")) then any_in ministry_keywords text
  else true.

Section WithDB.
Context {U : UnicodeDB}.

Definition filter_to_ggc (rows : list row) (ggc_country_qids : gset str) : list row :=
  filter (λ r, let cq := strip (get_or_empty r "country_qid") in
               cq ≠ [] ∧ cq ∈ ggc_country_qids) rows.

Fixpoint filter_relevant (rows : list row) : list row :=
  match rows with
  | [] => []
  | r :: rows' =>
      let lbl := str_lower (get_or_empty r "operator_label") in
      let desc := str_lower (get_or_empty r "description_en") in
      if decide (lbl = []) then filter_relevant rows'
      else
        let text := lbl ++ py " " ++ desc in
        if keep (get r "category") text then r :: filter_relevant rows'
        else filter_relevant rows'
  end.

End WithDB.
End Filter.

(** ** src/sources/wikidata.py *)
Module Wikidata.
Import Text.

(** One entry of [data["results"]["bindings"]]: each bound variable maps to a
    dict, of which the code reads the key ["value"]. *)
Abbreviation binding := (gmap string (gmap string str)) (only parsing).

(** What a query is made of: the country, the [VALUES ?type] identifiers and
    the [LIMIT]; the query text is the fixed template filled with them. *)
Record query := mkQuery {
  q_country : str;
  q_types : list str;
  q_limit : Z;
}.

Definition _v (val : option (gmap string str)) : option str :=
  match val with
  | None => None
  | Some d => if decide (d = ∅) then None else d !! "value"
  end.

(** [s.rsplit("/", 1)[-1]]: what follows the last slash, or all of [s]. *)
Fixpoint rsplit_last (s : str) : str :=
  match s with
  | [] => []
  | _ :: s' => if bool_decide (0x2F ∈ s) then rsplit_last s' else s
  end.

(** [c.rsplit("/", 1)[-1] if c else None] *)
Definition qid_of (c : option str) : option str :=
  match c with
  | None | Some [] => None
  | Some c => Some (rsplit_last c)
  end.

(** [list(dict.fromkeys(l))]: first occurrences, in order. *)
Fixpoint fromkeys_from (seen : list str) (l : list str) : list str :=
  match l with
  | [] => []
  | x :: l' => if decide (x ∈ seen) then fromkeys_from seen l'
               else x :: fromkeys_from (x :: seen) l'
  end.
Definition fromkeys (l : list str) : list str := fromkeys_from [] l.

(** The pauses [backoff_s * attempt] for [n] attempts numbered from [first]. *)
Definition backoffs (backoff_s : float) (first n : nat) : list float :=
  (λ attempt, backoff_s * float_of_nat attempt)%float <$> seq first n.

Section Fetch.
Context {U : UnicodeDB}.

(** [normalize_for_match] is imported from [src/utils/text.py], which does
    not define it; it is taken as given. *)
Variable normalize_for_match : str → str.

(** The endpoint: [requests.get] with [raise_for_status] and [r.json()];
    it answers the [n]-th request either with the bindings of the JSON body or
    with the exception raised on the way.  A body that was decoded is taken to
    be a SPARQL results document, in which [data["results"]["bindings"]] is a
    list of bindings; what [run] does with any other body (the lookup raises
    after the pause, outside the [try] of [_sparql]) is not modelled, and no
    property below draws on how the fetcher raises after an answer. *)
Variable endpoint : nat → query → result (list binding).

(** The loop of [_sparql] from attempt number [attempt] on, with [remaining]
    attempts to go ([retries] at the start); [last_err] is [None] until an
    attempt failed. *)
Fixpoint _sparql_loop (q : query) (backoff_s : float) (attempt remaining : nat)
    (last_err : option exn) : M (list binding) :=
  match remaining with
  | O => match last_err with
         | Some e => raise e
         | None => raise TypeError
         end
  | S remaining' =>
      catch (call endpoint q)
        (λ e, let wait := (backoff_s * float_of_nat attempt)%float in
              sleep wait;;
              _sparql_loop q backoff_s (S attempt) remaining' (Some e))
  end.

Definition _sparql (q : query) (retries : nat) (backoff_s : float) : M (list binding) :=
  _sparql_loop q backoff_s 1 retries None.

(** The record [run] builds from a binding whose [item] is set. *)
Definition row_of_binding (category : str) (b : binding) (item : str) : row :=
  let qid := rsplit_last item in
  let country_q := qid_of (_v (b !! "country")) in
  let type_q := qid_of (_v (b !! "type")) in
  list_to_map [
    ("source", Some (py "wikidata"));
    ("category", Some category);
    ("operator_qid", Some qid);
    ("operator_label", _v (b !! "itemLabel"));
    ("operator_type_qid", type_q);
    ("operator_type_label", _v (b !! "typeLabel"));
    ("country_qid", country_q);
    ("country_label", _v (b !! "countryLabel"));
    ("website", _v (b !! "website"));
    ("description_en", _v (b !! "desc"))
  ].

Fixpoint rows_of_bindings (category : str) (bs : list binding) : list row :=
  match bs with
  | [] => []
  | b :: bs' =>
      match _v (b !! "item") with
      | None | Some [] => rows_of_bindings category bs'
      | Some item => row_of_binding category b item :: rows_of_bindings category bs'
      end
  end.

(** The inner function [run] of [fetch_candidates_for_country]. *)
Definition run (country_qid category : str) (sleep_s : float) (limit : Z)
    (types : list str) : M (list row) :=
  data ← _sparql (mkQuery country_qid types limit) 3 2%float;
  sleep sleep_s;;
  ret (rows_of_bindings category data).

(** The test of the final loop: some normalized keyword occurs in the
    normalized label and description. *)
Definition kw_match (kw : list str) (r : row) : bool :=
  let lbl := str_lower (get_or_empty r "operator_label") in
  let desc := str_lower (get_or_empty r "description_en") in
  let text := normalize_for_match (lbl ++ py " " ++ desc) in
  let kw_norm := normalize_for_match <$> kw in
  existsb (λ k, contains k text) kw_norm.

(** Strict types, fallback types and keywords of a category, as the first
    [if] chain assigns them; [None] where it raises. *)
Definition category_setup (category : str) : option (list str * list str * list str) :=
  if decide (category = py "TSO") then
    Some ([py "Q112046"], [py "Q1326624"],
          [py "transmission"; py "grid"; py "system operator"; py "operator";
           py "electricidad"; py "energia"])
  else if decide (category = py "Regulator") then
    Some ([py "Q1639780"], [],
          [py "energy"; py "electricity"; py "power"; py "grid"; py "renewable";
           py "renewables"; py "electricidad"; py "energia"])
  else if decide (category = py "Ministry") then
    Some ([py "Q19973795"], [py "Q1805337"],
          [py "energy"; py "electricity"; py "power"])
  else None.

Definition fetch_candidates_for_country (country_qid category : str)
    (sleep_s : float) (limit : Z) : M (list row) :=
  match category_setup category with
  | None => raise (ValueError (py "Unknown category: " ++ category))
  | Some (strict_types, fallback_types, kw) =>
      let types := fromkeys (strict_types ++ fallback_types) in
      rows ← run country_qid category sleep_s limit types;
      ret (filter (λ r, kw_match kw r) rows)
  end.

End Fetch.
End Wikidata.

(** ** scripts/run_ggc_llm_seeds.py *)
Module Seeds.
Import Text.

(** What [json.loads] returns: [None], [bool], [int], [float], [str], [list]
    or [dict].  A dict is given by its items, searched by key. *)
Inductive json :=
| JNull
| JBool (b : bool)
| JInt (n : Z)
| JFloat (f : float)
| JStr (s : str)
| JArr (l : list json)
| JObj (d : list (string * json)).

(** Truth value of a Python object, as [or] and [not] test it. *)
Definition truthy (v : json) : bool :=
  match v with
  | JNull => false
  | JBool b => b
  | JInt n => negb (n =? 0)%Z
  | JFloat f => negb (f =? 0)%float
  | JStr s => negb (bool_decide (s = []))
  | JArr l => negb (bool_decide (l = []))
  | JObj d => negb (bool_decide (d = []))
  end.

(** [d.get(k)] on the items of a dict; an absent key gives [None]. *)
Fixpoint dict_get (d : list (string * json)) (k : string) : option json :=
  match d with
  | [] => None
  | (k', v) :: d' => if decide (k' = k) then Some v else dict_get d' k
  end.

(** [(it.get(k) or "").strip()]: a false value counts as [""]; a true value
    that is not a [str] has no [strip]. *)
Definition get_stripped (it : list (string * json)) (k : string) : result str :=
  match dict_get it k with
  | None => Ok (strip [])
  | Some v =>
      if truthy v then
        match v with
        | JStr s => Ok (strip s)
        | _ => Raise AttributeError
        end
      else Ok (strip [])
  end.

(** An element of the list [_safe_parse_items] returns: a dict with exactly
    these six keys, all [str]. *)
Record Item := mkItem {
  name : str;
  also_known_as : str;
  official_website : str;
  confidence : str;
  evidence : str;
  comment : str;
}.

Definition confidence_levels : list str := [py "HIGH"; py "MED"; py "LOW"].

(** The body of the loop of [_safe_parse_items] for one element [it] of
    [items]: [None] when the element is skipped, the appended item otherwise. *)
Definition parse_item (it : json) : result (option Item) :=
  match it with
  | JObj it =>
      name ← get_stripped it "name";
      also_known_as ← get_stripped it "also_known_as";
      official_website ← get_stripped it "official_website";
      confidence ← get_stripped it "confidence";
      evidence ← get_stripped it "evidence";
      comment ← get_stripped it "comment";
      if decide (name = []) then mret None
      else
        let confidence :=
          if decide (confidence ∈ confidence_levels) then confidence else py "LOW" in
        mret (Some (mkItem name also_known_as official_website confidence evidence comment))
  | _ => mret None
  end.

(** The loop over [items]; the result is what it appends to [out]. *)
Fixpoint parse_items (items : list json) : result (list Item) :=
  match items with
  | [] => mret []
  | it :: items' =>
      o ← parse_item it;
      out ← parse_items items';
      mret (from_option (λ x, x :: out) out o)
  end.

(** [_safe_parse_items(resp_output_text)].  The argument is the outcome of
    [json.loads(resp_output_text)]: [None] when it raises [JSONDecodeError],
    the decoded object otherwise. *)
Definition _safe_parse_items (loaded : option json) : result (list Item) :=
  match loaded with
  | None => Ok []
  | Some obj =>
      match obj with
      | JObj d =>
          match default (JArr []) (dict_get d "items") with
          | JArr items => parse_items items
          | _ => Ok []
          end
      | _ => Raise AttributeError
      end
  end.

(** The six keys of an item. *)
Definition item_keys : list string :=
  ["name"; "also_known_as"; "official_website"; "confidence"; "evidence"; "comment"].

(** The trimmed text of field [k] of a response item: the stripped value
    when it is a [str], and [""] when the key is absent or its value
    is not a [str]. *)
Definition field (it : list (string * json)) (k : string) : str :=
  match dict_get it k with
  | Some (JStr s) => strip s
  | _ => []
  end.

(** The confidence an appended item gets from the trimmed field. *)
Definition coerced (confidence : str) : str :=
  if decide (confidence ∈ confidence_levels) then confidence else py "LOW".

(** The item the loop appends for an element whose trimmed name is not empty. *)
Definition item_of (it : list (string * json)) : Item :=
  mkItem (field it "name") (field it "also_known_as") (field it "official_website")
         (coerced (field it "confidence")) (field it "evidence") (field it "comment").

(** Field [k] of a response item can be read: it is absent, or a [str], or a
    false value such as [null]. *)
Definition readable (it : list (string * json)) (k : string) : Prop :=
  ∀ v, dict_get it k = Some v → truthy v = true → ∃ s, v = JStr s.

(** An element of [items] whose fields can all be read; an element that is
    not a dict is skipped whatever it is. *)
Definition readable_element (e : json) : Prop :=
  match e with
  | JObj it => ∀ k, k ∈ item_keys → readable it k
  | _ => True
  end.

(** A name that is not empty and not whitespace only. *)
Definition proper_name (s : str) : Prop := s ≠ [] ∧ ¬ blank s.

(** [CATEGORIES]: key and description, in the declared order. *)
Definition CATEGORIES : list (str * str) := [
  (py "TSO", py "transmission system operator (TSO) / national grid or system operator");
  (py "Regulator", py "electricity/energy regulator with formal regulatory authority (tariffs, licensing, compliance, grid access)");
  (py "Ministry", py "cabinet-level ministry responsible for energy/electricity policy");
  (py "RenewablesAgency", py "national renewable energy agency (promotion/implementation body, incentives, programs, certification)");
  (py "NuclearAgency", py "national nuclear/atomic agency or nuclear safety regulator (nuclear governance, safety, licensing, atomic energy commission)")
].

(** The dataclass [SeedRow]. *)
Module SeedRow.
Record t := mk {
  country_label : str;
  category : str;
  name : str;
  also_known_as : str;
  official_website : str;
  confidence : str;
  evidence : str;
  comment : str;
  source : str;
}.
End SeedRow.

(** The prompt of a request is the fixed text of [_build_primary_prompt] or
    [_build_verify_prompt] filled with these arguments. *)
Inductive prompt :=
| PrimaryPrompt (country category_key category_desc : str) (max_items : Z)
| VerifyPrompt (country category_key category_desc candidate_name : str).

(** The arguments of [client.responses.create]; [rq_max_items] is the
    [maxItems] of the JSON schema sent as response format. *)
Record request := mkRequest {
  rq_model : str;
  rq_input : prompt;
  rq_temperature : float;
  rq_max_items : Z;
}.

(** The command-line arguments read by [main]. *)
Record Args := mkArgs {
  args_model : str;
  args_max_items : Z;
  args_temperature : float;
  args_sleep : float;
  args_verify : bool;
  args_dedupe_against_manual : bool;
}.

(** [min(a, b)] and [max(a, b)] on floats: the first argument unless the
    second is strictly smaller, respectively larger. *)
Definition py_min (a b : float) : float := if (b <? a)%float then b else a.
Definition py_max (a b : float) : float := if (a <? b)%float then b else a.

Section Run.

(** [normalize_for_match] is imported from [src/utils/text.py], which does
    not define it; it is taken as given. *)
Variable normalize_for_match : str → str.

(** The LLM client: [client.responses.create(...)] answers the [n]-th call
    with a response whose [output_text] is given here as [json.loads] reads
    it ([None]: not JSON), or raises. *)
Variable client : nat → request → result (option json).

Definition call_chatgpt (country category_key category_desc model : str)
    (max_items : Z) (temperature : float) : M (list Item) :=
  let prompt := PrimaryPrompt country category_key category_desc max_items in
  resp ← call client (mkRequest model prompt temperature max_items);
  lift (_safe_parse_items resp).

Definition verify_item (country category_key category_desc candidate_name model : str)
    (temperature : float) : M (option Item) :=
  let prompt := VerifyPrompt country category_key category_desc candidate_name in
  resp ← call client (mkRequest model prompt temperature 1);
  items ← lift (_safe_parse_items resp);
  mret (head items).

Variable args : Args.

(** The request [main] has [verify_item] send for the candidate [it]. *)
Definition verify_request (country cat_key cat_desc : str) (it : Item) : request :=
  mkRequest (args_model args) (VerifyPrompt country cat_key cat_desc (name it))
            (py_max 0 (py_min 0.2 (args_temperature args))) 1.

(** The verification loop of [main] over [items]; the result is the list
    [verified]. *)
Fixpoint verify_loop (country cat_key cat_desc : str) (items : list Item) : M (list Item) :=
  match items with
  | [] => mret []
  | it :: items' =>
      v ← verify_item country cat_key cat_desc (name it) (args_model args)
            (py_max 0 (py_min 0.2 (args_temperature args)));
      sleep (args_sleep args);;
      verified ← verify_loop country cat_key cat_desc items';
      mret (default it v :: verified)
  end.

(** One turn of the loop that fills [rows]: the state is [seen_keys] and
    [rows]. *)
Definition emit (manual_keys : gset str) (country cat_key : str)
    (st : gset str * list SeedRow.t) (it : Item) : gset str * list SeedRow.t :=
  let '(seen_keys, rows) := st in
  let k := normalize_for_match (name it) in
  if decide (k = []) then st
  else if decide (k ∈ seen_keys) then st
  else if args_dedupe_against_manual args && bool_decide (k ∈ manual_keys) then st
  else ({[k]} ∪ seen_keys,
        rows ++ [SeedRow.mk country cat_key (name it) (also_known_as it)
                   (official_website it) (confidence it) (evidence it) (comment it)
                   (py "chatgpt")]).

(** The body of the inner loop of [main] for one country and category. *)
Definition seed_category (manual_keys : gset str) (country : str)
    (st : gset str * list SeedRow.t) (cat : str * str) : M (gset str * list SeedRow.t) :=
  let '(cat_key, cat_desc) := cat in
  items ← call_chatgpt country cat_key cat_desc (args_model args)
             (args_max_items args) (args_temperature args);
  items ← (if args_verify args && negb (bool_decide (items = []))
           then verify_loop country cat_key cat_desc items
           else mret items);
  let st := foldl (emit manual_keys country cat_key) st items in
  sleep (args_sleep args);;
  mret st.

(** [main], from the loaded inputs to the rows handed to [write_csv]:
    [countries] is what [load_ggc_countries] returned and [manual_seed_keys]
    what [load_manual_seed_keys] would return. *)
Definition main (countries : list str) (manual_seed_keys : gset str) : M (list SeedRow.t) :=
  let manual_keys := if args_dedupe_against_manual args then manual_seed_keys else ∅ in
  st ← foldM (λ st country, foldM (seed_category manual_keys country) st CATEGORIES)
         (∅, []) countries;
  mret st.2.

End Run.
End Seeds.

(** ** scripts/run_ggc_llm_seeds.py, continued: inputs, category tests, schema *)
Module SeedsIO.
Import Text Seeds.

(** A CSV file as [csv.DictReader] presents it: the field names of the header
    ([None] for an empty file) and one dict per data row, whose values are a
    [str], or [None] for a field the row is too short for. *)
Record csv_file := mkCsv {
  fieldnames : option (list string);
  csv_rows : list row;
}.

(** The first loop of [load_ggc_countries]: the trimmed labels that are not
    empty, in file order. *)
Fixpoint country_labels (rows : list row) : list str :=
  match rows with
  | [] => []
  | row :: rows' =>
      let c := strip (get_or_empty row "country_label") in
      if decide (c = []) then country_labels rows' else c :: country_labels rows'
  end.

(** The second loop ("stable unique"), started with the labels [seen]. *)
Fixpoint stable_unique (seen : gset str) (countries : list str) : list str :=
  match countries with
  | [] => []
  | c :: countries' =>
      if decide (c ∈ seen) then stable_unique seen countries'
      else c :: stable_unique ({[c]} ∪ seen) countries'
  end.

(** [load_ggc_countries(path)] on the file found at [path]. *)
Definition load_ggc_countries (path : str) (f : csv_file) : result (list str) :=
  if decide ("country_label" ∈ default [] (fieldnames f))
  then Ok (stable_unique ∅ (country_labels (csv_rows f)))
  else Raise (ValueError (py "Expected column 'country_label' in " ++ path)).

Section ManualKeys.
(** [normalize_for_match] is imported from [src/utils/text.py], which does
    not define it; it is taken as given. *)
Variable normalize_for_match : str → str.

(** The loop of [load_manual_seed_keys]: the set [keys] after [rows]. *)
Fixpoint manual_keys_of (rows : list row) : gset str :=
  match rows with
  | [] => ∅
  | row :: rows' =>
      let nm := strip (get_or_empty row "name") in
      if decide (nm = []) then manual_keys_of rows'
      else {[normalize_for_match nm]} ∪ manual_keys_of rows'
  end.

(** [load_manual_seed_keys(path)]; [file] is [None] when [path] does not
    exist. *)
Definition load_manual_seed_keys (path : str) (file : option csv_file) : result (gset str) :=
  match file with
  | None => Ok ∅
  | Some f =>
      if decide ("name" ∈ default [] (fieldnames f))
      then Ok (manual_keys_of (csv_rows f))
      else Raise (ValueError (py "Expected column 'name' in " ++ path))
  end.

End ManualKeys.

(** The newline character of the source literals. *)
Definition nl : str := [0x0A].

Definition _category_tests_block (category_key : str) : str :=
  if decide (category_key = py "TSO") then
    py "- TSO test: entity responsible for transmission system operation/balancing/dispatch at national or regional level. "
    ++ py "May be called TSO, ISO, RTO, system operator, national grid operator. "
    ++ py "If vertically integrated, state that." ++ nl
  else if decide (category_key = py "Regulator") then
    py "- Regulator test: formal regulatory authority over electricity/energy (tariffs, licensing, enforcement, market/grid access). "
    ++ py "Do NOT include renewables agencies or nuclear agencies unless they regulate electricity markets." ++ nl
  else if decide (category_key = py "Ministry") then
    py "- Ministry test: cabinet-level ministry setting national energy/electricity policy. "
    ++ py "Do NOT list regulators or implementing agencies." ++ nl
  else if decide (category_key = py "RenewablesAgency") then
    py "- RenewablesAgency test: national-level public body implementing/promoting renewable energy programs "
    ++ py "(incentives, auctions/programs, certification, deployment support). "
    ++ py "Do NOT list NGOs or private associations. If none exists, return empty." ++ nl
  else if decide (category_key = py "NuclearAgency") then
    py "- NuclearAgency test: national nuclear safety regulator and/or atomic energy commission/authority with official mandate "
    ++ py "for nuclear governance (safety, licensing, oversight, atomic energy development). "
    ++ py "If none exists, return empty." ++ nl
  else [].

(** The dict [item_properties] of [_json_schema], in insertion order. *)
Definition item_properties : list (string * json) := [
  ("name", JObj [("type", JStr (py "string"))]);
  ("also_known_as", JObj [("type", JStr (py "string"))]);
  ("official_website", JObj [("type", JStr (py "string"))]);
  ("confidence", JObj [("type", JStr (py "string"));
                       ("enum", JArr [JStr (py "HIGH"); JStr (py "MED"); JStr (py "LOW")])]);
  ("evidence", JObj [("type", JStr (py "string"))]);
  ("comment", JObj [("type", JStr (py "string"))])
].

(** [list(d.keys())], with the keys as strings. *)
Definition keys_json (d : list (string * json)) : json :=
  JArr ((λ kv, JStr (py kv.1)) <$> d).

Definition _json_schema (max_items : Z) : list (string * json) := [
  ("name", JStr (py "ggc_seeds"));
  ("schema", JObj [
    ("type", JStr (py "object"));
    ("additionalProperties", JBool false);
    ("properties", JObj [
      ("items", JObj [
        ("type", JStr (py "array"));
        ("maxItems", JInt max_items);
        ("items", JObj [
          ("type", JStr (py "object"));
          ("additionalProperties", JBool false);
          ("properties", JObj item_properties);
          ("required", keys_json item_properties)
        ])
      ])
    ]);
    ("required", JArr [JStr (py "items")])
  ]);
  ("strict", JBool true)
].

(** [_format_json_schema_for_responses(schema_obj)]; [None] stands for the
    [KeyError] of a missing ["name"] or ["schema"]. *)
Definition _format_json_schema_for_responses (schema_obj : list (string * json))
    : option (list (string * json)) :=
  name ← dict_get schema_obj "name";
  schema ← dict_get schema_obj "schema";
  Some [("type", JStr (py "json_schema")); ("name", name); ("schema", schema)].

(** [d[k1][k2]...] on decoded JSON; [None] where a key is missing or the
    value is not a dict. *)
Fixpoint at_path (v : json) (path : list string) : option json :=
  match path with
  | [] => Some v
  | k :: path' =>
      match v with
      | JObj d => v' ← dict_get d k; at_path v' path'
      | _ => None
      end
  end.

End SeedsIO.

(** ** src/utils/paths.py *)
Module Paths.

(** A resolved path as its components below the root, outermost first. *)
Abbreviation path := (list string).

(** The first [n] entries of the sequence [p.parents] counted from its far
    end: the ancestors of [p] with fewer than [n] components, nearest first. *)
Fixpoint parents_upto (p : path) (n : nat) : list path :=
  match n with
  | O => []
  | S n' => take n' p :: parents_upto p n'
  end.

(** [p.parents]: the parent, its parent, and so on down to the root. *)
Definition parents (p : path) : list path := parents_upto p (length p).

Section ProjectRoot.
(** [Path.resolve] and [Path.exists] on the file system of the run, and the
    path [__file__] of the module. *)
Variable resolve : path → path.
Variable exists_ : path → bool.
Variable file : path.

(** The test of the loop: [(parent / "src").exists() and (parent / "data").exists()]. *)
Definition has_markers (parent : path) : bool :=
  exists_ (parent ++ ["src"]) && exists_ (parent ++ ["data"]).

(** [project_root(start)]; [None] stands for the [IndexError] of
    [parents[2]].  A [Path] is never falsy, so [start or Path(__file__)] is
    [start] unless that is [None]. *)
Definition project_root (start : option path) : option path :=
  let p := resolve (default file start) in
  match List.find has_markers (p :: parents p) with
  | Some parent => Some parent
  | None => parents (resolve file) !! 2%nat
  end.

End ProjectRoot.
End Paths.

(** ** filter-upbeat.py *)
Module Upbeat.
Import Text.

Section Script.
(** The order in which a [set] of tuples is iterated. *)
Variable iter : gset (list str) → list (list str).

(** The rows the script writes, given the rows [csv.reader] yields from the
    input; [None] stands for the [StopIteration] of [next(reader)] on an
    input without a header. *)
Definition unique_utilities (reader : list (list str)) : option (list (list str)) :=
  match reader with
  | [] => None
  | header :: rows => Some (header :: iter (list_to_set rows))
  end.

End Script.
End Upbeat.

(** ** Notions used to state properties *)
Module Notions.
Import Text.

(** The test [filter_relevant] makes on one record: it has a label, and
    [keep] holds of its category and text. *)
Definition relevant {U : UnicodeDB} (r : row) : Prop :=
  str_lower (get_or_empty r "operator_label") ≠ [] ∧
  Filter.keep (get r "category")
    (str_lower (get_or_empty r "operator_label") ++ py " " ++
     str_lower (get_or_empty r "description_en")) = true.

#[global] Instance relevant_dec {U : UnicodeDB} (r : row) : Decision (relevant r) :=
  ltac:(unfold relevant; apply _).

(** The test [filter_to_ggc] makes on one record. *)
Definition in_ggc (ggc_country_qids : gset str) (r : row) : Prop :=
  strip (get_or_empty r "country_qid") ≠ [] ∧
  strip (get_or_empty r "country_qid") ∈ ggc_country_qids.

#[global] Instance in_ggc_dec (ggc_country_qids : gset str) (r : row) :
  Decision (in_ggc ggc_country_qids r) :=
  ltac:(unfold in_ggc; apply _).

(** Between two worlds, [n] calls were made and [pauses] were taken. *)
Definition elapsed (w w' : World) (n : nat) (pauses : list float) : Prop :=
  calls w' = (calls w + n)%nat ∧ slept w' = slept w ++ pauses.

(** The deduplication key of an emitted row. *)
Definition seed_key (normalize_for_match : str → str) (r : Seeds.SeedRow.t) : str :=
  normalize_for_match (Seeds.SeedRow.name r).

(** A row written for [country] under the category key [cat_key]. *)
Definition tagged (country cat_key : str) (r : Seeds.SeedRow.t) : Prop :=
  Seeds.SeedRow.country_label r = country ∧
  Seeds.SeedRow.category r = cat_key ∧
  Seeds.SeedRow.source r = py "chatgpt".

(** The state of the loop of [main] is in order: the rows so far have
    distinct keys, all recorded in [seen_keys], none empty and, when
    deduplicating against the manual list, none in it. *)
Definition keys_ok (normalize_for_match : str → str) (args : Seeds.Args)
    (manual_keys : gset str) (st : gset str * list Seeds.SeedRow.t) : Prop :=
  NoDup (seed_key normalize_for_match <$> st.2)
  ∧ (∀ r, r ∈ st.2 → seed_key normalize_for_match r ∈ st.1)
  ∧ (∀ r, r ∈ st.2 →
       seed_key normalize_for_match r ≠ [] ∧
       (Seeds.args_dedupe_against_manual args = true →
        seed_key normalize_for_match r ∉ manual_keys)).

(** The ten keys of a record the fetcher builds. *)
Definition record_keys : gset string :=
  list_to_set ["source"; "category"; "operator_qid"; "operator_label";
               "operator_type_qid"; "operator_type_label"; "country_qid";
               "country_label"; "website"; "description_en"].

End Notions.

(** ** Sample inputs *)
Module Samples.
Import Text.

Definition w0 : World := {| calls := 0; slept := [] |}.

(** An endpoint that is down: every request ends in HTTP 503. *)
Definition down : nat → Wikidata.query → result (list (gmap string (gmap string str))) :=
  λ _ _, Raise (TransportError 503).

(** Two bindings: an item with a label and an English description, and an
    item with a description only. *)
Definition kenya_power : gmap string (gmap string str) :=
  list_to_map [
    ("item", {[ "value" := py "http://www.wikidata.org/entity/Q6392438" ]});
    ("itemLabel", {[ "value" := py "Kenya Power" ]});
    ("desc", {[ "value" := py "Electricity company" ]})
  ].
Definition unlabelled : gmap string (gmap string str) :=
  list_to_map [
    ("item", {[ "value" := py "http://www.wikidata.org/entity/Q42" ]});
    ("desc", {[ "value" := py "Power company" ]})
  ].

(** An endpoint that times out (code 0), then answers 503, then answers with
    one binding. *)
Definition flaky : nat → Wikidata.query → result (list (gmap string (gmap string str))) :=
  λ n _, match n with
         | O => Raise (TransportError 0)
         | S O => Raise (TransportError 503)
         | _ => Ok [unlabelled]
         end.
Definition flaky_errors (n : nat) : exn :=
  match n with O => TransportError 0 | _ => TransportError 503 end.

(** An endpoint that answers every request with the two bindings, and the
    records the fetcher builds from them for the category Ministry. *)
Definition two_companies : nat → Wikidata.query → result (list (gmap string (gmap string str))) :=
  λ _ _, Ok [kenya_power; unlabelled].
Definition kenya_power_row : row :=
  list_to_map [
    ("source", Some (py "wikidata"));
    ("category", Some (py "Ministry"));
    ("operator_qid", Some (py "Q6392438"));
    ("operator_label", Some (py "Kenya Power"));
    ("operator_type_qid", None);
    ("operator_type_label", None);
    ("country_qid", None);
    ("country_label", None);
    ("website", None);
    ("description_en", Some (py "Electricity company"))
  ].
Definition unlabelled_row : row :=
  list_to_map [
    ("source", Some (py "wikidata"));
    ("category", Some (py "Ministry"));
    ("operator_qid", Some (py "Q42"));
    ("operator_label", None);
    ("operator_type_qid", None);
    ("operator_type_label", None);
    ("country_qid", None);
    ("country_label", None);
    ("website", None);
    ("description_en", Some (py "Power company"))
  ].

(** The response text [{"items": [{"name": "Ofgem", "confidence": " HIGH "},
    {"name": "  ", "confidence": "HIGH"}, {"name": "Ofwat", "confidence": "SURE"}]}],
    decoded. *)
Definition padded_response : Seeds.json :=
  Seeds.JObj [("items", Seeds.JArr [
    Seeds.JObj [("name", Seeds.JStr (py "Ofgem")); ("confidence", Seeds.JStr (py " HIGH "))];
    Seeds.JObj [("name", Seeds.JStr (py "  ")); ("confidence", Seeds.JStr (py "HIGH"))];
    Seeds.JObj [("name", Seeds.JStr (py "Ofwat")); ("confidence", Seeds.JStr (py "SURE"))]
  ])].

(** The response text [{"items": [{"name": 5}]}], decoded. *)
Definition numeric_name_response : Seeds.json :=
  Seeds.JObj [("items", Seeds.JArr [Seeds.JObj [("name", Seeds.JInt 5)]])].

Definition sample_args : Seeds.Args := {|
  Seeds.args_model := py "gpt-5.2";
  Seeds.args_max_items := 5;
  Seeds.args_temperature := 0.1;
  Seeds.args_sleep := 0.5;
  Seeds.args_verify := true;
  Seeds.args_dedupe_against_manual := false;
|}.

Definition ofgem : Seeds.Item := Seeds.mkItem (py "Ofgem") [] [] (py "HIGH") [] [].
Definition ofwat : Seeds.Item := Seeds.mkItem (py "Ofwat") [] [] (py "LOW") [] [].
Definition ofcom : Seeds.Item := Seeds.mkItem (py "Ofcom") [] [] (py "MED") [] [].

(** A verifier whose first answer is not JSON, whose second is
    [{"items": []}] and whose later answers name a replacement. *)
Definition verifier : nat → Seeds.request → result (option Seeds.json) :=
  λ n _, match n with
         | O => Ok None
         | S O => Ok (Some (Seeds.JObj [("items", Seeds.JArr [])]))
         | _ => Ok (Some (Seeds.JObj [("items", Seeds.JArr [
                   Seeds.JObj [("name", Seeds.JStr (py "Gas and Electricity Markets Authority"));
                               ("confidence", Seeds.JStr (py "HIGH"))]])]))
         end.

(** A client that answers the primary prompt for Regulator with
    [padded_response], every other primary prompt with [{"items": []}], and
    every verification prompt with text that is not JSON. *)
Definition regulator_only : nat → Seeds.request → result (option Seeds.json) :=
  λ _ rq, match Seeds.rq_input rq with
          | Seeds.PrimaryPrompt _ category_key _ _ =>
              if decide (category_key = py "Regulator") then Ok (Some padded_response)
              else Ok (Some (Seeds.JObj [("items", Seeds.JArr [])]))
          | Seeds.VerifyPrompt _ _ _ _ => Ok None
          end.

(** A verifier that confirms the first candidate and answers every later
    call with the JSON text [[]]. *)
Definition list_verifier : nat → Seeds.request → result (option Seeds.json) :=
  λ n _, match n with
         | O => Ok (Some (Seeds.JObj [("items", Seeds.JArr [
                   Seeds.JObj [("name", Seeds.JStr (py "Ofwat"));
                               ("confidence", Seeds.JStr (py "HIGH"))]])]))
         | _ => Ok (Some (Seeds.JArr []))
         end.

(** A client that answers every primary prompt with [padded_response] and
    every verification prompt with the JSON text [[]]. *)
Definition list_answering : nat → Seeds.request → result (option Seeds.json) :=
  λ _ rq, match Seeds.rq_input rq with
          | Seeds.PrimaryPrompt _ _ _ _ => Ok (Some padded_response)
          | Seeds.VerifyPrompt _ _ _ _ => Ok (Some (Seeds.JArr []))
          end.

(** Three records that differ in the field "website" only: absent, [None]
    and whitespace. *)
Definition no_website : row := {[ "name" := Some (py "Ofgem") ]}.
Definition none_website : row :=
  list_to_map [("name", Some (py "Ofgem")); ("website", None)].
Definition spaces_website : row :=
  list_to_map [("name", Some (py "Ofgem")); ("website", Some (py "   "))].

Definition some_query : Wikidata.query :=
  Wikidata.mkQuery (py "Q114") [py "Q19973795"; py "Q1805337"] 2000.

(** A manual seed list with the header [name] and three rows, one of them
    blank, and the arguments that ask to deduplicate against it. *)
Definition manual_file : SeedsIO.csv_file := {|
  SeedsIO.fieldnames := Some ["name"; "country"];
  SeedsIO.csv_rows := [
    {[ "name" := Some (py " OFGEM ") ; "country" := Some (py "United Kingdom") ]};
    {[ "name" := Some (py "   ") ; "country" := None ]};
    {[ "name" := Some (py "Kenya Power") ; "country" := Some (py "Kenya") ]}
  ];
|}.
Definition dedupe_args : Seeds.Args := {|
  Seeds.args_model := py "gpt-5.2";
  Seeds.args_max_items := 5;
  Seeds.args_temperature := 0.1;
  Seeds.args_sleep := 0.5;
  Seeds.args_verify := false;
  Seeds.args_dedupe_against_manual := true;
|}.

(** A country list with a repeated and a blank label. *)
Definition country_file : SeedsIO.csv_file := {|
  SeedsIO.fieldnames := Some ["country_label"; "tier"];
  SeedsIO.csv_rows := [
    {[ "country_label" := Some (py "Kenya") ; "tier" := Some (py "1") ]};
    {[ "country_label" := Some (py " Peru ") ; "tier" := Some (py "2") ]};
    {[ "country_label" := Some (py "  ") ; "tier" := None ]};
    {[ "country_label" := Some (py "Kenya ") ; "tier" := Some (py "3") ]}
  ];
|}.

(** A labelled record of a category that is none of the five. *)
Definition spaceport_row : row :=
  list_to_map [("category", Some (py "Spaceport"));
               ("operator_label", Some (py "Cape Launch"))].

End Samples.

(** * Properties *)

Close Scope N_scope.

(** ** Strings *)
Section TextFacts.
Import Text.

Lemma lstrip_head s c t : lstrip s = c :: t → isspace c = false.
Proof.
  induction s as [|a s IH]; cbn [lstrip]; [done|].
  destruct (isspace a) eqn:Ha; [done|]. by intros [= <- _].
Qed.

Lemma lstrip_nil_iff s : lstrip s = [] ↔ blank s.
Proof.
  unfold blank. induction s as [|a s IH]; cbn [lstrip forallb]; [done|].
  destruct (isspace a); simpl; [done|]. split; discriminate.
Qed.

Lemma blank_reverse s : blank (reverse s) ↔ blank s.
Proof.
  unfold blank. rewrite !forallb_forall.
  by setoid_rewrite <- list_elem_of_In; setoid_rewrite elem_of_reverse.
Qed.

Lemma strip_nil_iff s : strip s = [] ↔ blank s.
Proof.
  unfold strip, rstrip.
  rewrite <- (reverse_nil (A:=N)), (inj_iff reverse), lstrip_nil_iff, blank_reverse.
  rewrite <- lstrip_nil_iff. rewrite lstrip_nil_iff. split.
  - intros Hb. destruct (lstrip s) as [|c t] eqn:E; [by apply lstrip_nil_iff|].
    apply lstrip_head in E. unfold blank in Hb. cbn [forallb] in Hb. by rewrite E in Hb.
  - intros Hb. apply lstrip_nil_iff in Hb. by rewrite Hb.
Qed.

(** A stripped string that is not empty holds a character that is not
    whitespace. *)
Lemma strip_not_blank s : strip s ≠ [] → ¬ blank (strip s).
Proof.
  unfold strip, rstrip. intros Hne Hb.
  apply (proj1 (blank_reverse _)) in Hb.
  destruct (lstrip (reverse (lstrip s))) as [|c t] eqn:E; [by apply Hne|].
  apply lstrip_head in E. unfold blank in Hb. cbn [forallb] in Hb. by rewrite E in Hb.
Qed.

Lemma startswith_spec k text : startswith k text = true ↔ ∃ suf, text = k ++ suf.
Proof.
  revert text. induction k as [|a k IH]; intros text; simpl.
  - split; [by exists text | done].
  - destruct text as [|b text].
    + split; [done | by intros [suf ?]].
    + rewrite andb_true_iff, N.eqb_eq, IH. split.
      * intros [-> [suf ->]]. by exists suf.
      * intros [suf [= -> ->]]. eauto.
Qed.

Lemma contains_spec k text : contains k text = true ↔ occurs_in k text.
Proof.
  unfold occurs_in. induction text as [|b text IH]; simpl.
  - rewrite orb_false_r, startswith_spec. split.
    + intros [suf E]. by exists [], suf.
    + intros (pre & suf & E). destruct pre; [by exists suf | done].
  - rewrite orb_true_iff, IH, startswith_spec. split.
    + intros [[suf E] | (pre & suf & E)].
      * by exists [], suf.
      * exists (b :: pre), suf. by rewrite E.
    + intros (pre & suf & E). destruct pre as [|c pre]; simpl in E.
      * left. by exists suf.
      * right. injection E as -> E. by exists pre, suf.
Qed.

Lemma elem_of_lstrip c s : c ∈ lstrip s → c ∈ s.
Proof.
  induction s as [|a s IH]; cbn [lstrip]; [done|].
  destruct (isspace a); [|done]. intros H. right. by apply IH.
Qed.

Lemma elem_of_strip c s : c ∈ strip s → c ∈ s.
Proof.
  unfold strip, rstrip. rewrite elem_of_reverse. intros H.
  apply elem_of_lstrip in H. rewrite elem_of_reverse in H. by apply elem_of_lstrip.
Qed.

Lemma elem_of_sub_ws c b s : c ∈ sub_ws_from b s → c = 0x20%N ∨ c ∈ s.
Proof.
  revert b. induction s as [|a s IH]; intros b; cbn [sub_ws_from]; [set_solver|].
  destruct (isspace a), b; rewrite ?elem_of_cons; intros H;
    repeat match goal with
           | H : _ ∨ _ |- _ => destruct H
           | H : _ ∈ sub_ws_from _ _ |- _ => apply IH in H
           end; auto.
Qed.

(** Filtering by two tests that agree on the elements of the list. *)
Lemma filter_agree {A} (P Q : A → Prop) `{∀ x, Decision (P x)} `{∀ x, Decision (Q x)}
    (l : list A) :
  (∀ x, x ∈ l → P x ↔ Q x) → filter P l = filter Q l.
Proof.
  induction l as [|a l IH]; intros HPQ; [done|].
  rewrite !filter_cons. rewrite IH by (intros; apply HPQ; by right).
  destruct (decide (P a)) as [HP|HP], (decide (Q a)) as [HQ|HQ]; try done;
    exfalso; apply (HPQ a) in HP || apply (HPQ a) in HQ; try done; by left.
Qed.

Lemma filter_all {A} (P : A → Prop) `{∀ x, Decision (P x)} (l : list A) :
  (∀ x, x ∈ l → P x) → filter P l = l.
Proof.
  induction l as [|a l IH]; intros HP; [done|].
  rewrite filter_cons_True by (apply HP; by left).
  f_equal. apply IH. intros x Hx. apply HP. by right.
Qed.

Lemma ascii_text_elem s : ascii_text s ↔ ∀ c, c ∈ s → is_ascii c = true.
Proof.
  unfold ascii_text. rewrite forallb_forall. by setoid_rewrite <- list_elem_of_In.
Qed.

Lemma ascii_lower_char_ascii c : is_ascii c = true → is_ascii (ascii_lower_char c) = true.
Proof.
  unfold is_ascii, ascii_lower_char. rewrite !N.ltb_lt.
  destruct (_ && _) eqn:E; [|done].
  apply andb_true_iff in E as [_ E%N.leb_le]. lia.
Qed.

Lemma ascii_block_compatible : AsciiCompatible ascii_block.
Proof. by split. Qed.

(** On ASCII text every database that agrees with Python there computes the
    same [normalize_name] as [ascii_block]. *)
Lemma normalize_name_ascii (U : UnicodeDB) (s : str) :
  AsciiCompatible U → ascii_text s →
  @normalize_name U s = @normalize_name ascii_block s.
Proof.
  intros HU Hs. unfold normalize_name.
  assert (Hstrip : ascii_text (strip s)).
  { apply ascii_text_elem. intros c Hc%elem_of_strip. by apply ascii_text_elem in Hc. }
  assert (Hlow : ascii_text (ascii_lower_char <$> strip s)).
  { apply ascii_text_elem. intros c (c' & -> & Hc')%list_elem_of_fmap.
    apply ascii_lower_char_ascii. by apply (proj1 (ascii_text_elem _) Hstrip). }
  rewrite (lower_ascii U HU) by done. rewrite (nfkd_ascii U HU) by done.
  cbn [str_lower nfkd ascii_block id].
  set (t := ascii_lower_char <$> strip s) in *.
  assert (Hf : filter (λ ch, @combining U ch = 0%N) t = t ∧
               filter (λ ch, @combining ascii_block ch = 0%N) t = t).
  { split; apply filter_all; intros c Hc; [|done].
    apply (combining_ascii U HU). by apply (proj1 (ascii_text_elem _) Hlow). }
  destruct Hf as [-> ->]. f_equal.
  apply filter_agree. intros c Hc. unfold kept.
  rewrite (isalnum_ascii U HU); [done|].
  apply elem_of_sub_ws in Hc as [->|Hc]; [done|].
  by apply (proj1 (ascii_text_elem _) Hlow).
Qed.

End TextFacts.

(** Membership in a list given by its elements. *)
Ltac in_list := solve [repeat first [by left | right]].

(** An equation between closed terms, checked by evaluating both sides. *)
Ltac vm_refl :=
  match goal with |- @eq ?T _ ?r => vm_cast_no_check (@eq_refl T r) end.

(** ** The deduplicator *)
Section DedupeFacts.
Import Text.
Context (key_fields : list string).

Lemma blank_field_strip (r : gmap string (option str)) f :
  blank_field (r !! f) → strip (get_or_empty r f) = [].
Proof.
  unfold blank_field, get_or_empty, get. destruct (r !! f) as [[s|]|]; simpl; try done.
  by intros ?%strip_nil_iff.
Qed.

(** A record whose key was seen, or is the key of a record before it, is
    skipped. *)
Lemma dedupe_loop_skip (r : gmap string (option str)) rows3 :
  ∀ rows seen,
    row_key key_fields r ∈ seen ∨
      (∃ r', r' ∈ rows ∧ row_key key_fields r' = row_key key_fields r) →
    dedupe_loop key_fields seen (rows ++ r :: rows3) =
    dedupe_loop key_fields seen (rows ++ rows3).
Proof.
  induction rows as [|a rows IH]; intros seen Hseen; cbn [app dedupe_loop].
  - destruct Hseen as [Hseen|(r' & []%elem_of_nil & _)]. by rewrite decide_True.
  - assert (Hcase : row_key key_fields a = row_key key_fields r ∨
                    row_key key_fields r ∈ seen ∨
                    ∃ r', r' ∈ rows ∧ row_key key_fields r' = row_key key_fields r).
    { destruct Hseen as [?|(r' & [->|?]%elem_of_cons & ?)]; eauto. }
    destruct (decide (row_key key_fields a ∈ seen)) as [Ha|Ha].
    + apply IH. destruct Hcase as [E|[?|?]]; [left; by rewrite <- E|by left|by right].
    + f_equal. apply IH. rewrite elem_of_union, elem_of_singleton.
      destruct Hcase as [E|[?|?]]; [left; by left|left; by right|by right].
Qed.

(** A record whose key is new is kept, after what the loop keeps of the
    records before it. *)
Lemma dedupe_loop_fresh (r : gmap string (option str)) rows2 :
  ∀ rows seen,
    row_key key_fields r ∉ seen →
    (∀ r', r' ∈ rows → row_key key_fields r' ≠ row_key key_fields r) →
    ∃ out2, dedupe_loop key_fields seen (rows ++ r :: rows2) =
            dedupe_loop key_fields seen rows ++ r :: out2.
Proof.
  induction rows as [|a rows IH]; intros seen Hseen Hrows; cbn [app dedupe_loop].
  - rewrite decide_False by done. eauto.
  - assert (Ha : row_key key_fields a ≠ row_key key_fields r) by (apply Hrows; by left).
    assert (Hrows' : ∀ r', r' ∈ rows → row_key key_fields r' ≠ row_key key_fields r)
      by (intros; apply Hrows; by right).
    destruct (decide (row_key key_fields a ∈ seen)).
    + by apply IH.
    + destruct (IH ({[row_key key_fields a]} ∪ seen)) as [out2 ->]; [|done|by exists out2].
      rewrite elem_of_union, elem_of_singleton. by intros [?|?].
Qed.

End DedupeFacts.

(** ** Effects *)
Section MonadFacts.

Lemma bind_ok {A B} (m : M A) (k : A → M B) w w' a :
  m w = (w', Ok a) → (m ≫= k) w = k a w'.
Proof. intros E. unfold mbind, M_bind, bind. by rewrite E. Qed.

Lemma bind_raise {A B} (m : M A) (k : A → M B) w w' e :
  m w = (w', Raise e) → (m ≫= k) w = (w', Raise e).
Proof. intros E. unfold mbind, M_bind, bind. by rewrite E. Qed.

(** A computation that ends well went through a first part that ended well. *)
Lemma bind_inv_ok {A B} (m : M A) (k : A → M B) w w2 b :
  (m ≫= k) w = (w2, Ok b) → ∃ w1 a, m w = (w1, Ok a) ∧ k a w1 = (w2, Ok b).
Proof.
  unfold mbind, M_bind, bind. destruct (m w) as [w1 [a|e]]; [eauto | done].
Qed.

End MonadFacts.

(** ** The text normalizer *)

(** Case, surrounding whitespace and whitespace runs do not matter; of the
    punctuation, [.], [-] and [&] stay. *)
Example normalize_name_runs :
  @Text.normalize_name Text.ascii_block (py "  OFGEM ") = py "ofgem"
  ∧ @Text.normalize_name Text.ascii_block (py "Ofgem.") = py "ofgem."
  ∧ @Text.normalize_name Text.ascii_block (py "E.ON   (UK)") = py "e.on uk"
  ∧ @Text.normalize_name Text.ascii_block (py "R&D, Co-op!") = py "r&d co-op"
  ∧ @Text.normalize_name Text.ascii_block (py "   ") = [].
Proof. repeat split; by vm_compute. Qed.

(** C1.  [normalize_name] is not idempotent.  Punctuation is removed after
    the whitespace runs were collapsed, so a removed character that stood
    between two spaces leaves a double space: ["a ! b"] normalizes to
    ["a  b"], and normalizing that gives ["a b"].  This holds for every
    character database that agrees with Python's on ASCII text. *)
Theorem normalize_name_not_idempotent (U : Text.UnicodeDB) :
  Text.AsciiCompatible U →
  Text.normalize_name (py "a ! b") = py "a  b" ∧
  Text.normalize_name (Text.normalize_name (py "a ! b")) = py "a b" ∧
  Text.normalize_name (Text.normalize_name (py "a ! b")) ≠ Text.normalize_name (py "a ! b").
Proof.
  intros HU.
  assert (E : Text.normalize_name (py "a ! b") = py "a  b").
  { rewrite normalize_name_ascii by done. by vm_compute. }
  assert (E2 : Text.normalize_name (Text.normalize_name (py "a ! b")) = py "a b").
  { rewrite E, normalize_name_ascii by done. by vm_compute. }
  split; [done|]. split; [done|]. by rewrite E2, E.
Qed.

Lemma normalize_name_not_idempotent_witness :
  @Text.normalize_name Text.ascii_block (py "a ! b") = py "a  b" ∧
  @Text.normalize_name Text.ascii_block
     (@Text.normalize_name Text.ascii_block (py "a ! b")) = py "a b" ∧
  @Text.normalize_name Text.ascii_block
     (@Text.normalize_name Text.ascii_block (py "a ! b"))
  ≠ @Text.normalize_name Text.ascii_block (py "a ! b").
Proof.
  exact (normalize_name_not_idempotent Text.ascii_block ascii_block_compatible).
Defined.

(** ** The reference post-filter *)
Section FilterFacts.
Import Text Filter.

Lemma any_in_spec ks text :
  any_in ks text = true ↔ ∃ k, k ∈ ks ∧ occurs_in k text.
Proof.
  unfold any_in. rewrite existsb_exists.
  setoid_rewrite contains_spec. by setoid_rewrite <- list_elem_of_In.
Qed.

(** What [filter_relevant] returns: the labelled records that pass [keep]. *)
Lemma elem_of_filter_relevant {U : UnicodeDB} (rows : list (gmap string (option str)))
    (r : gmap string (option str)) :
  r ∈ filter_relevant rows ↔
  r ∈ rows ∧ str_lower (get_or_empty r "operator_label") ≠ [] ∧
  keep (get r "category")
       (str_lower (get_or_empty r "operator_label") ++ py " " ++
        str_lower (get_or_empty r "description_en")) = true.
Proof.
  induction rows as [|r' rows IH]; cbn [filter_relevant].
  { split; [by intros ?%elem_of_nil | by intros [?%elem_of_nil _]]. }
  destruct (decide (str_lower (get_or_empty r' "operator_label") = [])) as [E|E].
  { split.
    - intros (? & ? & ?)%IH. split; [by right | done].
    - intros ([->|Hr]%elem_of_cons & Hl & Hk); [done | by apply IH]. }
  destruct (keep (get r' "category") _) eqn:K; split.
  - intros [->|(? & ? & ?)%IH]%elem_of_cons; (split; [by constructor | done]).
  - intros ([->|Hr]%elem_of_cons & Hl & Hk); [by left | right; by apply IH].
  - intros (? & ? & ?)%IH. split; [by right | done].
  - intros ([->|Hr]%elem_of_cons & Hl & Hk); [congruence | by apply IH].
Qed.

End FilterFacts.

(** C2, as the specification states it, fails: the text ["operator "] (a
    record labelled "Operator" with no description) contains the keyword
    "operator", and the TSO test rejects it. *)
Lemma tso_test_rejects_operator :
  Text.occurs_in (py "operator") (py "operator ") ∧
  Filter.keep (Some (py "TSO")) (py "operator ") = false.
Proof.
  split; [|by vm_compute]. by exists [], (py " ").
Qed.

(** C2, amended.  The TSO test is "any keyword present" over the keywords
    transmission, system operator, grid operator and tso. *)
Theorem tso_test_iff_keyword (text : str) :
  Filter.keep (Some (py "TSO")) text = true ↔
  ∃ k, k ∈ [py "transmission"; py "system operator"; py "grid operator"; py "tso"]
       ∧ Text.occurs_in k text.
Proof.
  unfold Filter.keep. rewrite decide_True by done. apply any_in_spec.
Qed.

(** ** The knowledge-graph fetcher *)
Section WikidataFacts.
Import Text Wikidata.
Context (endpoint : nat → query → result (list (gmap string (gmap string str)))).

Lemma sparql_loop_success q backoff_s errs k data :
  ∀ remaining attempt last_err w,
    k < remaining →
    (∀ i, i < k → endpoint (calls w + i) q = Raise (errs i)) →
    endpoint (calls w + k) q = Ok data →
    _sparql_loop endpoint q backoff_s attempt remaining last_err w =
      ({| calls := calls w + S k; slept := slept w ++ backoffs backoff_s attempt k |},
       Ok data).
Proof.
  revert errs. induction k as [|k IH]; intros errs remaining attempt last_err w Hk Herr Hok;
    (destruct remaining as [|remaining]; [lia|]); cbn [_sparql_loop]; unfold catch, call.
  - rewrite Nat.add_0_r in Hok. rewrite Hok. unfold backoffs. simpl.
    by rewrite app_nil_r, Nat.add_1_r.
  - pose proof (Herr 0 ltac:(lia)) as H0. rewrite Nat.add_0_r in H0. rewrite H0.
    erewrite bind_ok by reflexivity.
    rewrite (IH (λ i, errs (S i))); cbn [calls slept].
    + unfold backoffs. cbn [seq fmap list_fmap]. rewrite <- app_assoc. simpl.
      do 3 f_equal. lia.
    + lia.
    + intros i Hi. rewrite <- Herr by lia. f_equal. lia.
    + rewrite <- Hok. f_equal. lia.
Qed.

Lemma sparql_loop_exhausted q backoff_s errs :
  ∀ remaining attempt e0 w,
    (∀ i, i < remaining → endpoint (calls w + i) q = Raise (errs i)) →
    _sparql_loop endpoint q backoff_s attempt remaining (Some e0) w =
      ({| calls := calls w + remaining; slept := slept w ++ backoffs backoff_s attempt remaining |},
       Raise (match remaining with O => e0 | S n => errs n end)).
Proof.
  intros remaining. revert errs. induction remaining as [|remaining IH]; intros errs attempt e0 w Herr;
    cbn [_sparql_loop].
  - unfold raise, backoffs. simpl. rewrite app_nil_r, Nat.add_0_r. by destruct w.
  - unfold catch, call.
    pose proof (Herr 0 ltac:(lia)) as H0. rewrite Nat.add_0_r in H0. rewrite H0.
    erewrite bind_ok by reflexivity.
    rewrite (IH (λ i, errs (S i))); cbn [calls slept].
    + unfold backoffs. cbn [seq fmap list_fmap]. rewrite <- app_assoc. simpl.
      f_equal; [f_equal; lia|]. by destruct remaining.
    + intros i Hi. rewrite <- Herr by lia. f_equal. lia.
Qed.

(** A response [_sparql] returns is an answer of the endpoint. *)
Lemma sparql_loop_ok q backoff_s :
  ∀ remaining attempt last_err w w' data,
    _sparql_loop endpoint q backoff_s attempt remaining last_err w = (w', Ok data) →
    ∃ n, endpoint n q = Ok data.
Proof.
  induction remaining as [|remaining IH]; intros attempt last_err w w' data; cbn [_sparql_loop].
  - by destruct last_err.
  - unfold catch, call. destruct (endpoint (calls w) q) as [d|e] eqn:E.
    + intros [= _ <-]. eauto.
    + intros (w1 & [] & _ & H)%bind_inv_ok. by apply IH in H.
Qed.

End WikidataFacts.

(** C6.  Retry policy of [_sparql].  If the first [k] attempts fail and
    attempt [k+1] (within the bound [retries]) succeeds, its response is
    returned after exactly [k+1] requests, with the pauses [backoff_s * 1, ...,
    backoff_s * k] and none after the success; in particular a first attempt
    that succeeds is returned at once.  If all [retries] attempts fail, the
    error of the last attempt is raised, after the pauses [backoff_s * 1, ...,
    backoff_s * retries]. *)
Theorem sparql_retry_policy
    (endpoint : nat → Wikidata.query → result (list (gmap string (gmap string str))))
    (q : Wikidata.query) (retries : nat) (backoff_s : float) (errs : nat → exn) (w : World) :
  (∀ k data,
     k < retries →
     (∀ i, i < k → endpoint (calls w + i) q = Raise (errs i)) →
     endpoint (calls w + k) q = Ok data →
     Wikidata._sparql endpoint q retries backoff_s w =
       ({| calls := calls w + S k;
           slept := slept w ++ ((λ attempt, backoff_s * float_of_nat attempt)%float <$> seq 1 k) |},
        Ok data))
  ∧
  (0 < retries →
   (∀ i, i < retries → endpoint (calls w + i) q = Raise (errs i)) →
   Wikidata._sparql endpoint q retries backoff_s w =
     ({| calls := calls w + retries;
         slept := slept w ++ ((λ attempt, backoff_s * float_of_nat attempt)%float <$> seq 1 retries) |},
      Raise (errs (retries - 1)))).
Proof.
  split.
  - intros k data Hk Herr Hok. unfold Wikidata._sparql.
    by apply (sparql_loop_success endpoint q backoff_s errs).
  - intros Hpos Herr. unfold Wikidata._sparql.
    destruct retries as [|n]; [lia|]. cbn [Wikidata._sparql_loop]. unfold catch, call.
    pose proof (Herr 0 ltac:(lia)) as H0. rewrite Nat.add_0_r in H0. rewrite H0.
    erewrite bind_ok by reflexivity.
    rewrite (sparql_loop_exhausted endpoint q backoff_s (λ i, errs (S i))); cbn [calls slept].
    + unfold Wikidata.backoffs. cbn [seq fmap list_fmap]. rewrite <- app_assoc. simpl.
      f_equal; [f_equal; lia|]. rewrite Nat.sub_0_r. by destruct n.
    + intros i Hi. rewrite <- Herr by lia. f_equal. lia.
Qed.

Lemma sparql_retry_policy_witness :
  Wikidata._sparql Samples.flaky Samples.some_query 3 2 Samples.w0 =
    ({| calls := 3; slept := [2; 4]%float |}, Ok [Samples.unlabelled])
  ∧ Wikidata._sparql Samples.down Samples.some_query 3 2 Samples.w0 =
    ({| calls := 3; slept := [2; 4; 6]%float |}, Raise (TransportError 503)).
Proof.
  split.
  - apply (proj1 (sparql_retry_policy Samples.flaky Samples.some_query 3 2
                    Samples.flaky_errors Samples.w0) 2 [Samples.unlabelled]).
    + lia.
    + intros [|[|i]] Hi; [reflexivity | reflexivity | lia].
    + reflexivity.
  - apply (proj2 (sparql_retry_policy Samples.down Samples.some_query 3 2
                    (λ _, TransportError 503) Samples.w0)).
    + lia.
    + reflexivity.
Defined.

(** The text the fetcher and the post-filter judge a record on, before
    normalization: lower-cased label, a space, lower-cased description. *)
Lemma sample_texts :
  @Text.str_lower Text.ascii_block (Text.get_or_empty Samples.kenya_power_row "operator_label")
    ++ py " " ++
  @Text.str_lower Text.ascii_block (Text.get_or_empty Samples.kenya_power_row "description_en")
    = py "kenya power electricity company"
  ∧
  @Text.str_lower Text.ascii_block (Text.get_or_empty Samples.unlabelled_row "operator_label")
    ++ py " " ++
  @Text.str_lower Text.ascii_block (Text.get_or_empty Samples.unlabelled_row "description_en")
    = py " power company".
Proof. split; by vm_compute. Qed.

(** C3, as the specification states it, fails.  For the category Ministry
    the fetcher returns a record labelled "Kenya Power", described as
    "Electricity company", and a record without a label, described as "Power
    company".  Their texts contain the fetcher's keywords "power" and
    "electricity", but neither "ministry" nor "department", the keywords of
    the Category Rule Set; the reference post-filter drops both records, and
    the second has no label. *)
Lemma fetcher_returns_unlabelled_off_list_record :
  Wikidata.fetch_candidates_for_country (U:=Text.ascii_block)
      (Text.normalize_for_match (U:=Text.ascii_block)) Samples.two_companies
      (py "Q114") (py "Ministry") 0.8 2000 Samples.w0
    = ({| calls := 1; slept := [0.8%float] |},
       Ok [Samples.kenya_power_row; Samples.unlabelled_row])
  ∧ Text.get Samples.unlabelled_row "operator_label" = None
  ∧ (∀ k text,
       k ∈ [py "ministry"; py "department"] →
       text ∈ [py "kenya power electricity company"; py " power company"] →
       ¬ Text.occurs_in k text ∧
       ¬ Text.occurs_in k (Text.normalize_for_match (U:=Text.ascii_block) text))
  ∧ Filter.filter_relevant (U:=Text.ascii_block)
      [Samples.kenya_power_row; Samples.unlabelled_row] = [].
Proof.
  split; [vm_refl|]. split; [vm_refl|]. split; [|vm_refl].
  intros k text Hk Ht.
  repeat (apply elem_of_cons in Hk as [->|Hk];
          [repeat (apply elem_of_cons in Ht as [->|Ht];
                   [split; intros Hocc%contains_spec; by vm_compute in Hocc|]);
           by apply elem_of_nil in Ht|]).
  by apply elem_of_nil in Hk.
Qed.

(** What the fetcher returns, when it returns: the records built from an
    answer of the endpoint that pass [kw_match] for the keyword list of the
    category. *)
Lemma fetch_result (U : Text.UnicodeDB) (normalize_for_match : str → str)
    (endpoint : nat → Wikidata.query → result (list (gmap string (gmap string str))))
    (country_qid category : str) (sleep_s : float) (limit : Z)
    (w w' : World) (out : list (gmap string (option str))) :
  Wikidata.fetch_candidates_for_country normalize_for_match endpoint
      country_qid category sleep_s limit w = (w', Ok out) →
  ∃ strict_types fallback_types kw n bs,
    Wikidata.category_setup category = Some (strict_types, fallback_types, kw) ∧
    endpoint n (Wikidata.mkQuery country_qid
                  (Wikidata.fromkeys (strict_types ++ fallback_types)) limit) = Ok bs ∧
    out = filter (λ r, Wikidata.kw_match normalize_for_match kw r)
                 (Wikidata.rows_of_bindings category bs).
Proof.
  unfold Wikidata.fetch_candidates_for_country.
  destruct (Wikidata.category_setup category) as [[[st fb] kw]|]; [|done].
  intros (w1 & rows & Hrun & Hret)%bind_inv_ok.
  injection Hret as _ <-.
  unfold Wikidata.run in Hrun.
  apply bind_inv_ok in Hrun as (w2 & data & Hq & Hrun).
  apply bind_inv_ok in Hrun as (w3 & [] & _ & Hrun).
  injection Hrun as _ <-.
  apply sparql_loop_ok in Hq as [n Hn].
  by exists st, fb, kw, n, data.
Qed.

Lemma kw_match_spec (U : Text.UnicodeDB) (normalize_for_match : str → str)
    (kw : list str) (r : gmap string (option str)) :
  Wikidata.kw_match normalize_for_match kw r = true ↔
  ∃ k, k ∈ kw ∧
       Text.occurs_in (normalize_for_match k)
         (normalize_for_match
            (Text.str_lower (Text.get_or_empty r "operator_label") ++ py " " ++
             Text.str_lower (Text.get_or_empty r "description_en"))).
Proof.
  unfold Wikidata.kw_match. rewrite existsb_exists.
  setoid_rewrite contains_spec. setoid_rewrite <- list_elem_of_In.
  setoid_rewrite list_elem_of_fmap. split.
  - intros (k' & (k & -> & Hk) & Hocc). eauto.
  - intros (k & Hk & Hocc). eauto.
Qed.

(** C3, amended.  Whenever the fetcher returns, the category is TSO,
    Regulator or Ministry and has its own keyword list in the fetcher
    ([category_setup]); every returned record is built from a binding of an
    answer of the endpoint, and some normalized keyword of that list occurs
    in its normalized, lower-cased label-plus-description text; a record
    built from the answer in whose text no such keyword occurs is not
    returned. *)
Theorem fetcher_keeps_own_keyword_matches (U : Text.UnicodeDB)
    (normalize_for_match : str → str)
    (endpoint : nat → Wikidata.query → result (list (gmap string (gmap string str))))
    (country_qid category : str) (sleep_s : float) (limit : Z)
    (w w' : World) (out : list (gmap string (option str))) :
  Wikidata.fetch_candidates_for_country normalize_for_match endpoint
      country_qid category sleep_s limit w = (w', Ok out) →
  ∃ strict_types fallback_types kw n bs,
    Wikidata.category_setup category = Some (strict_types, fallback_types, kw) ∧
    endpoint n (Wikidata.mkQuery country_qid
                  (Wikidata.fromkeys (strict_types ++ fallback_types)) limit) = Ok bs ∧
    (∀ r, r ∈ out →
       r ∈ Wikidata.rows_of_bindings category bs ∧
       ∃ k, k ∈ kw ∧
            Text.occurs_in (normalize_for_match k)
              (normalize_for_match
                 (Text.str_lower (Text.get_or_empty r "operator_label") ++ py " " ++
                  Text.str_lower (Text.get_or_empty r "description_en")))) ∧
    (∀ r, r ∈ Wikidata.rows_of_bindings category bs →
       (∀ k, k ∈ kw →
          ¬ Text.occurs_in (normalize_for_match k)
              (normalize_for_match
                 (Text.str_lower (Text.get_or_empty r "operator_label") ++ py " " ++
                  Text.str_lower (Text.get_or_empty r "description_en")))) →
       r ∉ out).
Proof.
  intros (st & fb & kw & n & bs & Hcat & Hn & ->)%fetch_result.
  exists st, fb, kw, n, bs. split; [done|]. split; [done|]. split.
  - intros r [Hm Hr]%list_elem_of_filter. split; [done|].
    by apply kw_match_spec, Is_true_true.
  - intros r _ Hno [Hm _]%list_elem_of_filter.
    apply Is_true_true, kw_match_spec in Hm as (k & Hk & Hocc). by apply (Hno k).
Qed.

Lemma fetcher_keeps_own_keyword_matches_witness :
  ∃ strict_types fallback_types kw n bs,
    Wikidata.category_setup (py "Ministry") = Some (strict_types, fallback_types, kw) ∧
    Samples.two_companies n (Wikidata.mkQuery (py "Q114")
                  (Wikidata.fromkeys (strict_types ++ fallback_types)) 2000) = Ok bs ∧
    (∀ r, r ∈ [Samples.kenya_power_row; Samples.unlabelled_row] →
       r ∈ Wikidata.rows_of_bindings (py "Ministry") bs ∧
       ∃ k, k ∈ kw ∧
            Text.occurs_in (Text.normalize_for_match (U:=Text.ascii_block) k)
              (Text.normalize_for_match (U:=Text.ascii_block)
                 (@Text.str_lower Text.ascii_block
                    (Text.get_or_empty r "operator_label") ++ py " " ++
                  @Text.str_lower Text.ascii_block
                    (Text.get_or_empty r "description_en")))) ∧
    (∀ r, r ∈ Wikidata.rows_of_bindings (py "Ministry") bs →
       (∀ k, k ∈ kw →
          ¬ Text.occurs_in (Text.normalize_for_match (U:=Text.ascii_block) k)
              (Text.normalize_for_match (U:=Text.ascii_block)
                 (@Text.str_lower Text.ascii_block
                    (Text.get_or_empty r "operator_label") ++ py " " ++
                  @Text.str_lower Text.ascii_block
                    (Text.get_or_empty r "description_en")))) →
       r ∉ [Samples.kenya_power_row; Samples.unlabelled_row]).
Proof.
  apply (fetcher_keeps_own_keyword_matches Text.ascii_block
           (Text.normalize_for_match (U:=Text.ascii_block)) Samples.two_companies
           (py "Q114") (py "Ministry") 0.8 2000 Samples.w0
           {| calls := 1; slept := [0.8%float] |}
           [Samples.kenya_power_row; Samples.unlabelled_row]).
  vm_refl.
Defined.

(** C4, as the specification states it, fails for the relevance test of the
    post-filter: a labelled record of the unknown category "Spaceport" is
    passed, without any error. *)
Lemma unknown_category_passes_filter :
  Text.get Samples.spaceport_row "category" = Some (py "Spaceport") ∧
  Filter.filter_relevant (U:=Text.ascii_block) [Samples.spaceport_row]
    = [Samples.spaceport_row].
Proof. split; vm_refl. Qed.

(** C4, amended.  For every category other than TSO, Regulator and Ministry
    (unknown ones, and RenewablesAgency and NuclearAgency alike) the relevance
    test of the post-filter returns true, so [filter_relevant] keeps every
    labelled record of that category; the fetcher raises
    [ValueError("Unknown category: ...")] before any request or pause. *)
Theorem untested_category_passes_filter_and_stops_fetcher (U : Text.UnicodeDB)
    (normalize_for_match : str → str)
    (endpoint : nat → Wikidata.query → result (list (gmap string (gmap string str))))
    (country_qid category : str) (sleep_s : float) (limit : Z) (w : World) :
  category ∉ [py "TSO"; py "Regulator"; py "Ministry"] →
  (∀ text, Filter.keep (Some category) text = true)
  ∧ (∀ rows r, r ∈ rows → Text.get r "category" = Some category →
       Text.str_lower (Text.get_or_empty r "operator_label") ≠ [] →
       r ∈ Filter.filter_relevant rows)
  ∧ Wikidata.fetch_candidates_for_country normalize_for_match endpoint
      country_qid category sleep_s limit w
    = (w, Raise (ValueError (py "Unknown category: " ++ category))).
Proof.
  intros Hcat.
  assert (category ≠ py "TSO" ∧ category ≠ py "Regulator" ∧ category ≠ py "Ministry")
    as (H1 & H2 & H3) by (repeat split; intros ->; apply Hcat; in_list).
  assert (Hkeep : ∀ text, Filter.keep (Some category) text = true).
  { intros text. unfold Filter.keep. by rewrite !decide_False by congruence. }
  split; [done|]. split.
  - intros rows r Hr Hc Hl. apply elem_of_filter_relevant. by rewrite Hc.
  - unfold Wikidata.fetch_candidates_for_country, Wikidata.category_setup.
    by rewrite !decide_False by done.
Qed.

Lemma untested_category_passes_filter_and_stops_fetcher_witness :
  (∀ text, Filter.keep (Some (py "NuclearAgency")) text = true)
  ∧ (∀ rows r, r ∈ rows → Text.get r "category" = Some (py "NuclearAgency") →
       @Text.str_lower Text.ascii_block (Text.get_or_empty r "operator_label") ≠ [] →
       r ∈ Filter.filter_relevant (U:=Text.ascii_block) rows)
  ∧ Wikidata.fetch_candidates_for_country (U:=Text.ascii_block)
      (Text.normalize_for_match (U:=Text.ascii_block)) Samples.two_companies
      (py "Q114") (py "NuclearAgency") 0.8 2000
      Samples.w0
    = (Samples.w0, Raise (ValueError (py "Unknown category: " ++ py "NuclearAgency"))).
Proof.
  apply (untested_category_passes_filter_and_stops_fetcher Text.ascii_block
           (Text.normalize_for_match (U:=Text.ascii_block)) Samples.two_companies
           (py "Q114") (py "NuclearAgency") 0.8 2000 Samples.w0).
  by vm_compute; intros H; repeat (apply elem_of_cons in H as [H|H]; [done|]);
     apply elem_of_nil in H.
Defined.

(** ** The LLM seed generator: response parsing *)
Section ParseFacts.
Import Text Seeds.

Lemma get_stripped_ok it k s : get_stripped it k = Ok s → s = field it k.
Proof.
  unfold get_stripped, field. destruct (dict_get it k) as [v|]; [|by intros [= <-]].
  destruct v; simpl; repeat case_match; try by intros [= <-].
  all: try discriminate.
  intros [= <-]. by repeat case_bool_decide; simplify_eq.
Qed.

Lemma get_stripped_readable it k : readable it k → get_stripped it k = Ok (field it k).
Proof.
  unfold readable, get_stripped, field. intros Hr.
  destruct (dict_get it k) as [v|]; [|done].
  destruct (truthy v) eqn:T.
  - destruct (Hr v eq_refl T) as [s ->]. done.
  - destruct v; try done. simpl in T. apply negb_false_iff, bool_decide_eq_true in T.
    by subst.
Qed.

Lemma coerced_level c : coerced c ∈ confidence_levels.
Proof. unfold coerced. case_decide; [done|]. unfold confidence_levels. in_list. Qed.

Lemma parse_item_some e x :
  parse_item e = Ok (Some x) →
  ∃ it, e = JObj it ∧ x = item_of it ∧ field it "name" ≠ [].
Proof.
  destruct e as [| | | | |l|it]; try done. intros H. exists it. split; [done|].
  unfold parse_item in H.
  repeat match type of H with
         | context [get_stripped it ?k] =>
             let E := fresh "E" in
             destruct (get_stripped it k) as [?|?] eqn:E; [apply get_stripped_ok in E|done]
         end.
  simpl in H. case_decide; [done|]. cbv [mret result_ret] in H. by simplify_eq.
Qed.

Lemma parse_item_readable it :
  (∀ k, k ∈ item_keys → readable it k) →
  parse_item (JObj it) = Ok (if decide (field it "name" = []) then None else Some (item_of it)).
Proof.
  intros Hr. unfold parse_item.
  rewrite !get_stripped_readable by (apply Hr; unfold item_keys; in_list).
  simpl. by case_decide.
Qed.

Lemma parse_items_elem items out x :
  parse_items items = Ok out → x ∈ out → ∃ e, e ∈ items ∧ parse_item e = Ok (Some x).
Proof.
  revert out. induction items as [|e items IH]; intros out; cbn [parse_items].
  - intros [= <-] ?%elem_of_nil. done.
  - destruct (parse_item e) as [o|] eqn:E; [|done].
    destruct (parse_items items) as [out'|] eqn:E'; [|done].
    simpl. intros [= <-] Hx. destruct o as [y|]; simpl in Hx.
    + apply elem_of_cons in Hx as [->|Hx]; [exists e; split; [by left|done]|].
      destruct (IH out' eq_refl Hx) as (e' & ? & ?). exists e'. split; [by right|done].
    + destruct (IH out' eq_refl Hx) as (e' & ? & ?). exists e'. split; [by right|done].
Qed.

Lemma parse_items_readable items :
  Forall readable_element items →
  ∃ out, parse_items items = Ok out ∧
         ∀ it, JObj it ∈ items → field it "name" ≠ [] → item_of it ∈ out.
Proof.
  induction 1 as [|e items He _ (out & Ho & IH)]; cbn [parse_items].
  - exists []. split; [done|]. by intros it ?%elem_of_nil.
  - rewrite Ho. destruct e as [| | | | |l|it];
      try (simpl; exists out; split; [done|]; intros it' [[=]|?]%elem_of_cons; by apply IH).
    rewrite (parse_item_readable it He).
    destruct (decide (field it "name" = [])) as [E|E]; simpl.
    + exists out. split; [done|]. intros it' [[= ->]|?]%elem_of_cons Hn; [done|by apply IH].
    + exists (item_of it :: out). split; [done|].
      intros it' [[= ->]|?]%elem_of_cons Hn; [by left|right; by apply IH].
Qed.

Lemma safe_parse_items_elem loaded out x :
  _safe_parse_items loaded = Ok out → x ∈ out →
  ∃ d items it, loaded = Some (JObj d) ∧ dict_get d "items" = Some (JArr items) ∧
                JObj it ∈ items ∧ x = item_of it ∧ field it "name" ≠ [].
Proof.
  unfold _safe_parse_items. destruct loaded as [obj|]; [|by intros [= <-] ?%elem_of_nil].
  destruct obj as [| | | | |l|d]; try done.
  destruct (dict_get d "items") as [v|] eqn:E; simpl.
  - destruct v as [| | | | |items|]; try by intros [= <-] ?%elem_of_nil.
    intros Hp Hx. destruct (parse_items_elem _ _ _ Hp Hx) as (e & He & Hpe).
    apply parse_item_some in Hpe as (it & -> & -> & Hn). by exists d, items, it.
  - by intros [= <-] ?%elem_of_nil.
Qed.

(** What parsing returns has a trimmed name that is not empty, hence not
    whitespace-only, and a confidence that is one of the three levels. *)
Lemma safe_parse_items_sound loaded out x :
  _safe_parse_items loaded = Ok out → x ∈ out →
  name x ≠ [] ∧ ¬ blank (name x) ∧ confidence x ∈ confidence_levels.
Proof.
  intros Hp Hx. destruct (safe_parse_items_elem _ _ _ Hp Hx) as (d & items & it & _ & _ & _ & -> & Hn).
  cbn [name confidence item_of]. split; [done|]. split; [|apply coerced_level].
  unfold field in *. destruct (dict_get it "name") as [[]|]; try done.
  by apply strip_not_blank.
Qed.

End ParseFacts.

(** ** The LLM seed generator: the run *)
Section RunFacts.
Import Text Seeds.
Context (normalize_for_match : str → str)
        (client : nat → request → result (option json))
        (args : Args).

Lemma lift_inv {A} (r : result A) w w' a : lift r w = (w', Ok a) → r = Ok a ∧ w' = w.
Proof. unfold lift. by intros [= -> ->]. Qed.

Lemma call_chatgpt_named country cat_key cat_desc model max_items temperature w w' items :
  call_chatgpt client country cat_key cat_desc model max_items temperature w = (w', Ok items) →
  Forall (λ x, proper_name (name x)) items.
Proof.
  unfold call_chatgpt. intros (w1 & resp & _ & [Hp _]%lift_inv)%bind_inv_ok.
  apply Forall_forall. intros x Hx.
  destruct (safe_parse_items_sound _ _ x Hp Hx) as (? & ? & _). by split.
Qed.

(** What [verify_item] returns when the client answers and parsing does not
    raise: the first parsed item, if there is one. *)
Lemma verify_item_ok country cat_key cat_desc it w resp l :
  client (calls w) (verify_request args country cat_key cat_desc it) = Ok resp →
  _safe_parse_items resp = Ok l →
  verify_item client country cat_key cat_desc (name it) (args_model args)
      (py_max 0 (py_min 0.2 (args_temperature args))) w
    = ({| calls := S (calls w); slept := slept w |}, Ok (head l)).
Proof.
  intros Hc Hp. unfold verify_item.
  erewrite bind_ok; [|unfold call; fold (verify_request args country cat_key cat_desc it);
                      by rewrite Hc].
  erewrite bind_ok; [|unfold lift; by rewrite Hp]. done.
Qed.

Lemma verify_item_inv country cat_key cat_desc it w w' v :
  verify_item client country cat_key cat_desc (name it) (args_model args)
      (py_max 0 (py_min 0.2 (args_temperature args))) w = (w', Ok v) →
  ∃ resp l, client (calls w) (verify_request args country cat_key cat_desc it) = Ok resp ∧
            _safe_parse_items resp = Ok l ∧ v = head l ∧
            w' = {| calls := S (calls w); slept := slept w |}.
Proof.
  unfold verify_item. intros (w1 & resp & Hc & H)%bind_inv_ok.
  apply bind_inv_ok in H as (w2 & l & [Hp ->]%lift_inv & H).
  unfold call in Hc. injection Hc as <- Hc. injection H as <- <-.
  by exists resp, l.
Qed.

(** What [verify_item] does when the client answers and parsing raises. *)
Lemma verify_item_raises country cat_key cat_desc it w resp e :
  client (calls w) (verify_request args country cat_key cat_desc it) = Ok resp →
  _safe_parse_items resp = Raise e →
  verify_item client country cat_key cat_desc (name it) (args_model args)
      (py_max 0 (py_min 0.2 (args_temperature args))) w
    = ({| calls := S (calls w); slept := slept w |}, Raise e).
Proof.
  intros Hc Hp. unfold verify_item.
  erewrite bind_ok; [|unfold call; fold (verify_request args country cat_key cat_desc it);
                      by rewrite Hc].
  erewrite bind_raise; [done|]. unfold lift. by rewrite Hp.
Qed.

Lemma verify_loop_inv country cat_key cat_desc items :
  ∀ w w' verified,
    verify_loop client args country cat_key cat_desc items w = (w', Ok verified) →
    length verified = length items ∧
    (Forall (λ x, proper_name (name x)) items →
     Forall (λ x, proper_name (name x)) verified).
Proof.
  induction items as [|it items IH]; intros w w' verified; cbn [verify_loop].
  - intros [= _ <-]. done.
  - intros (w1 & v & Hv & H)%bind_inv_ok.
    apply bind_inv_ok in H as (w2 & [] & _ & H).
    apply bind_inv_ok in H as (w3 & rest & Hrest & H).
    injection H as _ <-. apply IH in Hrest as [Hlen Hnamed].
    split; [simpl; by rewrite Hlen|].
    intros [Hit Hitems]%Forall_cons. constructor; [|by apply Hnamed].
    apply verify_item_inv in Hv as (resp & l & _ & Hp & -> & _).
    destruct l as [|x l]; [done|]. simpl.
    destruct (safe_parse_items_sound _ _ x Hp ltac:(by left)) as (? & ? & _). by split.
Qed.

Lemma verify_loop_ok country cat_key cat_desc items :
  ∀ w,
    (∀ i it, items !! i = Some it →
       ∃ resp l, client (calls w + i) (verify_request args country cat_key cat_desc it) = Ok resp ∧
                 _safe_parse_items resp = Ok l) →
    ∃ w' verified,
      verify_loop client args country cat_key cat_desc items w = (w', Ok verified) ∧
      ∀ i it resp l,
        items !! i = Some it →
        client (calls w + i) (verify_request args country cat_key cat_desc it) = Ok resp →
        _safe_parse_items resp = Ok l →
        verified !! i = Some (default it (head l)).
Proof.
  induction items as [|it items IH]; intros w Hclient; cbn [verify_loop].
  - exists w, []. split; [done|]. intros i it resp l Hi. by rewrite lookup_nil in Hi.
  - destruct (Hclient 0 it eq_refl) as (resp & l & Hc & Hp).
    rewrite Nat.add_0_r in Hc.
    set (w2 := {| calls := S (calls w); slept := slept w ++ [args_sleep args] |}).
    destruct (IH w2) as (w' & verified & Hloop & Hpos).
    { intros i it' Hi. destruct (Hclient (S i) it' Hi) as (resp' & l' & Hc' & Hp').
      exists resp', l'. split; [|done]. rewrite <- Hc'. cbn [calls w2]. f_equal. lia. }
    exists w', (default it (head l) :: verified). split.
    + erewrite bind_ok by (by apply (verify_item_ok _ _ _ _ _ resp l)).
      erewrite bind_ok by reflexivity. fold w2.
      erewrite bind_ok by exact Hloop. done.
    + intros [|i] it' resp' l' Hi Hc' Hp'.
      * injection Hi as <-. rewrite Nat.add_0_r, Hc in Hc'. injection Hc' as <-.
        rewrite Hp in Hp'. by injection Hp' as <-.
      * apply (Hpos i it' resp' l' Hi); [|done]. rewrite <- Hc'. cbn [calls w2]. f_equal. lia.
Qed.

Lemma emit_named manual_keys country cat_key st it :
  proper_name (name it) →
  Forall (λ r, proper_name (SeedRow.name r)) st.2 →
  Forall (λ r, proper_name (SeedRow.name r))
         (emit normalize_for_match args manual_keys country cat_key st it).2.
Proof.
  intros Hit Hst. unfold emit. destruct st as [seen_keys rows].
  repeat case_match; try done. cbn [snd] in *. apply Forall_app. split; [done|].
  by constructor.
Qed.

Lemma foldl_emit_named manual_keys country cat_key items :
  ∀ st,
    Forall (λ x, proper_name (name x)) items →
    Forall (λ r, proper_name (SeedRow.name r)) st.2 →
    Forall (λ r, proper_name (SeedRow.name r))
           (foldl (emit normalize_for_match args manual_keys country cat_key) st items).2.
Proof.
  induction items as [|it items IH]; intros st; [done|].
  intros [Hit Hitems]%Forall_cons Hst. cbn [foldl]. apply IH; [done|]. by apply emit_named.
Qed.

(** An invariant of every turn of a loop holds when the loop ends. *)
Lemma foldM_invariant {A S} (I : S → Prop) (f : S → A → M S) (l : list A) :
  (∀ s a w w' s', a ∈ l → I s → f s a w = (w', Ok s') → I s') →
  ∀ s w w' s', I s → foldM f s l w = (w', Ok s') → I s'.
Proof.
  induction l as [|a l IH]; intros Hf s w w' s' Hs; cbn [foldM].
  - by intros [= _ <-].
  - intros (w1 & s1 & H1 & H2)%bind_inv_ok.
    eapply IH; [| |exact H2].
    + intros ? a' ? ? ? Ha'. apply Hf. by right.
    + eapply Hf; [by left|exact Hs|exact H1].
Qed.

Lemma seed_category_named manual_keys country st cat w w' st' :
  Forall (λ r, proper_name (SeedRow.name r)) st.2 →
  seed_category normalize_for_match client args manual_keys country st cat w = (w', Ok st') →
  Forall (λ r, proper_name (SeedRow.name r)) st'.2.
Proof.
  intros Hst. unfold seed_category. destruct cat as [cat_key cat_desc].
  intros (w1 & items & Hitems%call_chatgpt_named & H)%bind_inv_ok.
  apply bind_inv_ok in H as (w2 & items' & Hv & H).
  apply bind_inv_ok in H as (w3 & [] & _ & H). injection H as _ <-.
  apply foldl_emit_named; [|done].
  destruct (args_verify args && negb (bool_decide (items = []))).
  - apply verify_loop_inv in Hv as [_ Hv]. by apply Hv.
  - by injection Hv as _ <-.
Qed.

End RunFacts.

(** C5.  Parsing is not defensive against every response: a text that is
    valid JSON but not an object, such as [[]] or [null], reaches [obj.get]
    and raises [AttributeError]; so does an item field holding a number.
    Undecodable text and an [items] that is not a list do give the empty
    list. *)
Theorem safe_parse_items_raises_on_non_object :
  Seeds._safe_parse_items (Some (Seeds.JArr [])) = Raise AttributeError
  ∧ Seeds._safe_parse_items (Some Seeds.JNull) = Raise AttributeError
  ∧ Seeds._safe_parse_items (Some Samples.numeric_name_response) = Raise AttributeError
  ∧ Seeds._safe_parse_items None = Ok []
  ∧ Seeds._safe_parse_items (Some (Seeds.JObj [("items", Seeds.JInt 3)])) = Ok [].
Proof. repeat split; by vm_compute. Qed.

(** C8, as the specification states it, fails: the confidence [" HIGH "] is
    none of HIGH, MED, LOW, and parsing sets the item's confidence to
    ["HIGH"], not to ["LOW"]. *)
Lemma padded_confidence_is_trimmed_not_lowered :
  (py " HIGH " ∉ Seeds.confidence_levels) ∧
  Seeds._safe_parse_items (Some Samples.padded_response) =
    Ok [Seeds.mkItem (py "Ofgem") [] [] (py "HIGH") [] [];
        Seeds.mkItem (py "Ofwat") [] [] (py "LOW") [] []].
Proof.
  split; [|by vm_compute]. unfold Seeds.confidence_levels. intros H.
  repeat (apply elem_of_cons in H as [H|H]; [by vm_compute in H|]).
  by apply elem_of_nil in H.
Qed.

(** C8, amended.  In a response whose [items] is a list and whose item fields
    can be read (each absent, a string, or a false value), every item whose
    trimmed name is not empty is kept, with its fields trimmed; its confidence
    is the trimmed confidence field when that is HIGH, MED or LOW, and LOW
    otherwise (also when the field is missing).  Every parsed item's
    confidence is one of the three values. *)
Theorem confidence_is_coerced_after_trimming (d : list (string * Seeds.json))
    (items : list Seeds.json) :
  Seeds.dict_get d "items" = Some (Seeds.JArr items) →
  Forall Seeds.readable_element items →
  ∃ out,
    Seeds._safe_parse_items (Some (Seeds.JObj d)) = Ok out ∧
    (∀ x, x ∈ out → Seeds.confidence x ∈ [py "HIGH"; py "MED"; py "LOW"]) ∧
    ∀ it, Seeds.JObj it ∈ items → Seeds.field it "name" ≠ [] →
      ∃ x, x ∈ out ∧
           Seeds.name x = Seeds.field it "name" ∧
           (Seeds.field it "confidence" ∈ [py "HIGH"; py "MED"; py "LOW"] →
              Seeds.confidence x = Seeds.field it "confidence") ∧
           (Seeds.field it "confidence" ∉ [py "HIGH"; py "MED"; py "LOW"] →
              Seeds.confidence x = py "LOW").
Proof.
  intros Hd Hr. destruct (parse_items_readable items Hr) as (out & Ho & Hkeep).
  assert (Hp : Seeds._safe_parse_items (Some (Seeds.JObj d)) = Ok out).
  { unfold Seeds._safe_parse_items. by rewrite Hd. }
  exists out. split; [done|split].
  - intros x Hx. by destruct (safe_parse_items_sound _ _ x Hp Hx) as (_ & _ & H).
  - intros it Hit Hn. exists (Seeds.item_of it). split; [by apply Hkeep|].
    cbn [Seeds.item_of Seeds.name Seeds.confidence]. unfold Seeds.coerced.
    split; [done|]. split; intros; by case_decide.
Qed.

Lemma confidence_is_coerced_after_trimming_witness :
  ∃ out,
    Seeds._safe_parse_items (Some Samples.padded_response) = Ok out ∧
    (∀ x, x ∈ out → Seeds.confidence x ∈ [py "HIGH"; py "MED"; py "LOW"]) ∧
    ∀ it, Seeds.JObj it ∈
            [Seeds.JObj [("name", Seeds.JStr (py "Ofgem"));
                         ("confidence", Seeds.JStr (py " HIGH "))];
             Seeds.JObj [("name", Seeds.JStr (py "  ")); ("confidence", Seeds.JStr (py "HIGH"))];
             Seeds.JObj [("name", Seeds.JStr (py "Ofwat")); ("confidence", Seeds.JStr (py "SURE"))]] →
      Seeds.field it "name" ≠ [] →
      ∃ x, x ∈ out ∧
           Seeds.name x = Seeds.field it "name" ∧
           (Seeds.field it "confidence" ∈ [py "HIGH"; py "MED"; py "LOW"] →
              Seeds.confidence x = Seeds.field it "confidence") ∧
           (Seeds.field it "confidence" ∉ [py "HIGH"; py "MED"; py "LOW"] →
              Seeds.confidence x = py "LOW").
Proof.
  apply (confidence_is_coerced_after_trimming
           [("items", Seeds.JArr
              [Seeds.JObj [("name", Seeds.JStr (py "Ofgem"));
                           ("confidence", Seeds.JStr (py " HIGH "))];
               Seeds.JObj [("name", Seeds.JStr (py "  ")); ("confidence", Seeds.JStr (py "HIGH"))];
               Seeds.JObj [("name", Seeds.JStr (py "Ofwat")); ("confidence", Seeds.JStr (py "SURE"))]])]).
  - reflexivity.
  - repeat constructor; intros k Hk v Hv;
      repeat (apply elem_of_cons in Hk as [->|Hk];
              [vm_compute in Hv; try discriminate; injection Hv as <-; eauto|]);
      by apply elem_of_nil in Hk.
Defined.

(** The verification pass, as far as it holds.  Whenever the pass ends,
    [verified] is as long as the candidate list.  When every verification
    call is answered and parsed without an exception, the pass ends, and
    position [i] of [verified] holds the original candidate if its response
    was not JSON or gave no item, and the first item of the response
    otherwise. *)
Theorem verification_keeps_every_position
    (client : nat → Seeds.request → result (option Seeds.json)) (args : Seeds.Args)
    (country cat_key cat_desc : str) (items : list Seeds.Item) (w : World) :
  (∀ w' verified,
     Seeds.verify_loop client args country cat_key cat_desc items w = (w', Ok verified) →
     length verified = length items)
  ∧
  ((∀ i it, items !! i = Some it →
      ∃ resp l,
        client (calls w + i) (Seeds.verify_request args country cat_key cat_desc it) = Ok resp ∧
        Seeds._safe_parse_items resp = Ok l) →
   ∃ w' verified,
     Seeds.verify_loop client args country cat_key cat_desc items w = (w', Ok verified) ∧
     length verified = length items ∧
     ∀ i it resp l,
       items !! i = Some it →
       client (calls w + i) (Seeds.verify_request args country cat_key cat_desc it) = Ok resp →
       Seeds._safe_parse_items resp = Ok l →
       (resp = None → verified !! i = Some it) ∧
       (l = [] → verified !! i = Some it) ∧
       (∀ v l', l = v :: l' → verified !! i = Some v)).
Proof.
  split.
  - intros w' verified H. by apply verify_loop_inv in H as [H _].
  - intros Hclient.
    destruct (verify_loop_ok client args country cat_key cat_desc items w Hclient)
      as (w' & verified & Hloop & Hpos).
    exists w', verified. split; [done|]. split.
    { by apply verify_loop_inv in Hloop as [H _]. }
    intros i it resp l Hi Hc Hp. specialize (Hpos i it resp l Hi Hc Hp).
    split; [|split].
    + intros ->. injection Hp as <-. done.
    + by intros ->.
    + by intros v l' ->.
Qed.

Lemma verification_keeps_every_position_witness :
  ∃ w' verified,
    Seeds.verify_loop Samples.verifier Samples.sample_args (py "United Kingdom")
        (py "Regulator") (py "energy regulator")
        [Samples.ofwat; Samples.ofcom; Samples.ofgem] Samples.w0 = (w', Ok verified) ∧
    length verified = 3 ∧
    ∀ i it resp l,
      [Samples.ofwat; Samples.ofcom; Samples.ofgem] !! i = Some it →
      Samples.verifier (0 + i)
        (Seeds.verify_request Samples.sample_args (py "United Kingdom")
           (py "Regulator") (py "energy regulator") it) = Ok resp →
      Seeds._safe_parse_items resp = Ok l →
      (resp = None → verified !! i = Some it) ∧
      (l = [] → verified !! i = Some it) ∧
      (∀ v l', l = v :: l' → verified !! i = Some v).
Proof.
  apply (proj2 (verification_keeps_every_position Samples.verifier Samples.sample_args
                  (py "United Kingdom") (py "Regulator") (py "energy regulator")
                  [Samples.ofwat; Samples.ofcom; Samples.ofgem] Samples.w0)).
  intros [|[|[|i]]] it Hi; [| | |done]; injection Hi as <-;
    eexists _, _; (split; [reflexivity | by vm_compute]).
Defined.

(** C7.  The verification pass does not survive every parse failure.  When
    the calls for the candidates before [it] are answered and parsed, and the
    response to the call for [it] is one on which [_safe_parse_items] raises
    (a text that is JSON but not an object, such as [[]] or [null], or an item
    field that is not a string), the pass raises that exception right after
    this call: there is no list [verified], so [it] is not retained at its
    position, no later candidate is verified, and the pause that follows a
    verification is not taken. *)
Theorem verification_aborts_on_schema_mismatch
    (client : nat → Seeds.request → result (option Seeds.json)) (args : Seeds.Args)
    (country cat_key cat_desc : str) (items : list Seeds.Item) (it : Seeds.Item)
    (items' : list Seeds.Item) (w : World) (resp : option Seeds.json) (e : exn) :
  (∀ i it', items !! i = Some it' →
     ∃ resp' l,
       client (calls w + i) (Seeds.verify_request args country cat_key cat_desc it') = Ok resp' ∧
       Seeds._safe_parse_items resp' = Ok l) →
  client (calls w + length items) (Seeds.verify_request args country cat_key cat_desc it)
    = Ok resp →
  Seeds._safe_parse_items resp = Raise e →
  Seeds.verify_loop client args country cat_key cat_desc (items ++ it :: items') w
    = ({| calls := calls w + S (length items);
          slept := slept w ++ replicate (length items) (Seeds.args_sleep args) |},
       Raise e).
Proof.
  revert w. induction items as [|it0 items IH]; intros w Hclient Hc Hp;
    cbn [app Seeds.verify_loop length].
  - rewrite Nat.add_0_r in Hc.
    erewrite bind_raise by (by apply (verify_item_raises _ _ _ _ _ _ _ resp e)).
    cbn [replicate]. rewrite app_nil_r, Nat.add_1_r. done.
  - destruct (Hclient 0 it0 eq_refl) as (resp0 & l0 & Hc0 & Hp0).
    rewrite Nat.add_0_r in Hc0.
    erewrite bind_ok by (by apply (verify_item_ok _ _ _ _ _ _ _ resp0 l0)).
    erewrite bind_ok by reflexivity.
    erewrite bind_raise; [reflexivity|]. unfold sleep. cbn [calls slept].
    rewrite IH; cbn [calls slept].
    + cbn [replicate]. rewrite <- app_assoc. cbn [app].
      by replace (S (calls w) + S (length items)) with (calls w + S (S (length items))) by lia.
    + intros i it' Hi. destruct (Hclient (S i) it' Hi) as (resp' & l' & Hc' & Hp').
      exists resp', l'. split; [|done]. rewrite <- Hc'. f_equal. lia.
    + rewrite <- Hc. cbn [length]. f_equal. lia.
    + done.
Qed.

Lemma verification_aborts_on_schema_mismatch_witness :
  Seeds.verify_loop Samples.list_verifier Samples.sample_args (py "United Kingdom")
      (py "Regulator") (py "energy regulator")
      ([Samples.ofwat] ++ Samples.ofcom :: [Samples.ofgem]) Samples.w0
    = ({| calls := 0 + 2; slept := [] ++ replicate 1 0.5%float |}, Raise AttributeError).
Proof.
  apply (verification_aborts_on_schema_mismatch Samples.list_verifier Samples.sample_args
           (py "United Kingdom") (py "Regulator") (py "energy regulator")
           [Samples.ofwat] Samples.ofcom [Samples.ofgem] Samples.w0
           (Some (Seeds.JArr [])) AttributeError).
  - intros [|i] it' Hi; [|done]. injection Hi as <-.
    eexists _, _. split; [reflexivity | by vm_compute].
  - reflexivity.
  - reflexivity.
Defined.

(** The same failure in a whole run: the first category of the first country
    yields two candidates, the response to the first verification call is the
    JSON text [[]], and [main] ends in [AttributeError] after two calls, with
    no rows to write. *)
Lemma run_aborts_on_schema_mismatch :
  Seeds.main (Text.normalize_for_match (U:=Text.ascii_block)) Samples.list_answering
      Samples.sample_args [py "United Kingdom"; py "Kenya"] ∅ Samples.w0
    = ({| calls := 2; slept := [] |}, Raise AttributeError).
Proof. vm_refl. Qed.

(** C9.  Items without a proper name are never output.  Every item that
    parsing returns stems from an element of [items] whose trimmed name is
    not empty, and carries that name, which is neither empty nor whitespace
    only.  An element whose name is absent, [null], or a string that is empty
    or whitespace only, is never appended, whatever its other fields hold.
    Every row [main] hands to [write_csv] has a name that is neither empty
    nor whitespace only. *)
Theorem blank_names_are_never_emitted :
  (∀ loaded out x,
     Seeds._safe_parse_items loaded = Ok out → x ∈ out →
     Seeds.proper_name (Seeds.name x) ∧
     ∃ d items it,
       loaded = Some (Seeds.JObj d) ∧ Seeds.dict_get d "items" = Some (Seeds.JArr items) ∧
       Seeds.JObj it ∈ items ∧ Seeds.name x = Seeds.field it "name")
  ∧ (∀ it x,
       Seeds.dict_get it "name" = None ∨
       Seeds.dict_get it "name" = Some Seeds.JNull ∨
       (∃ s, Seeds.dict_get it "name" = Some (Seeds.JStr s) ∧ Text.blank s) →
       Seeds.parse_item (Seeds.JObj it) ≠ Ok (Some x))
  ∧ (∀ normalize_for_match client args countries manual_seed_keys w w' rows r,
       Seeds.main normalize_for_match client args countries manual_seed_keys w = (w', Ok rows) →
       r ∈ rows →
       Seeds.proper_name (Seeds.SeedRow.name r)).
Proof.
  split; [|split].
  - intros loaded out x Hp Hx.
    destruct (safe_parse_items_sound _ _ x Hp Hx) as (? & ? & _).
    destruct (safe_parse_items_elem _ _ x Hp Hx) as (d & items & it & ? & ? & ? & -> & ?).
    split; [by split|]. by exists d, items, it.
  - intros it x Hname (it' & [= <-] & _ & Hn)%parse_item_some. apply Hn.
    unfold Seeds.field. destruct Hname as [->|[->|(s & -> & Hs)]]; [done|done|].
    by apply strip_nil_iff.
  - intros nfm client args countries manual w w' rows r Hmain Hr.
    unfold Seeds.main in Hmain.
    apply bind_inv_ok in Hmain as (w1 & st & Hloop & Hret). injection Hret as _ <-.
    revert r Hr. apply Forall_forall.
    revert Hloop. apply (foldM_invariant (λ st, Forall _ st.2)); [|by constructor].
    intros s country w2 w3 s' _ Hs.
    apply (foldM_invariant (λ st, Forall _ st.2)); [|done].
    intros s2 cat w4 w5 s3 _ Hs2 Hcat. by eapply seed_category_named.
Qed.

Lemma blank_names_are_never_emitted_witness :
  Seeds.main (Text.normalize_for_match (U:=Text.ascii_block)) Samples.regulator_only
      Samples.sample_args [py "United Kingdom"] ∅ Samples.w0
    = ({| calls := 7; slept := [0.5; 0.5; 0.5; 0.5; 0.5; 0.5; 0.5]%float |},
       Ok [Seeds.SeedRow.mk (py "United Kingdom") (py "Regulator") (py "Ofgem") [] []
             (py "HIGH") [] [] (py "chatgpt");
           Seeds.SeedRow.mk (py "United Kingdom") (py "Regulator") (py "Ofwat") [] []
             (py "LOW") [] [] (py "chatgpt")])
  ∧ Seeds.proper_name (py "Ofwat").
Proof.
  assert (Hmain :
    Seeds.main (Text.normalize_for_match (U:=Text.ascii_block)) Samples.regulator_only
        Samples.sample_args [py "United Kingdom"] ∅ Samples.w0
      = ({| calls := 7; slept := [0.5; 0.5; 0.5; 0.5; 0.5; 0.5; 0.5]%float |},
         Ok [Seeds.SeedRow.mk (py "United Kingdom") (py "Regulator") (py "Ofgem") [] []
               (py "HIGH") [] [] (py "chatgpt");
             Seeds.SeedRow.mk (py "United Kingdom") (py "Regulator") (py "Ofwat") [] []
               (py "LOW") [] [] (py "chatgpt")])) by (by vm_compute).
  split; [exact Hmain|].
  apply (proj2 (proj2 blank_names_are_never_emitted) _ _ _ _ _ _ _ _
           (Seeds.SeedRow.mk (py "United Kingdom") (py "Regulator") (py "Ofwat") [] []
              (py "LOW") [] [] (py "chatgpt")) Hmain).
  right; left.
Defined.

(** C10.  The key of a record is the tuple of the trimmed values of its key
    fields, an absent or [None] field counting as [""].  Two records whose
    key fields are equal, or differ only in being absent, [None], empty or
    whitespace only, have the same key; of two records with the same key the
    later one is dropped, and a record whose key no earlier record has is
    kept. *)
Theorem dedupe_treats_blank_fields_alike (key_fields : list string) :
  (∀ r : gmap string (option str),
     Text.row_key key_fields r =
     (λ f, Text.strip (match r !! f with Some (Some s) => s | _ => [] end)) <$> key_fields)
  ∧ (∀ r1 r2 : gmap string (option str),
       (∀ f, f ∈ key_fields →
          r1 !! f = r2 !! f ∨ (Text.blank_field (r1 !! f) ∧ Text.blank_field (r2 !! f))) →
       Text.row_key key_fields r1 = Text.row_key key_fields r2)
  ∧ (∀ rows1 r1 rows2 r2 rows3,
       Text.row_key key_fields r1 = Text.row_key key_fields r2 →
       Text.dedupe_rows (rows1 ++ r1 :: rows2 ++ r2 :: rows3) key_fields =
       Text.dedupe_rows (rows1 ++ r1 :: rows2 ++ rows3) key_fields)
  ∧ (∀ rows1 r1 rows2,
       (∀ r, r ∈ rows1 → Text.row_key key_fields r ≠ Text.row_key key_fields r1) →
       ∃ out2, Text.dedupe_rows (rows1 ++ r1 :: rows2) key_fields =
               Text.dedupe_rows rows1 key_fields ++ r1 :: out2).
Proof.
  split; [|split; [|split]].
  - intros r. unfold Text.row_key. apply list_fmap_ext. intros _ f _.
    unfold Text.get_or_empty, Text.get. by destruct (r !! f) as [[?|]|].
  - intros r1 r2 H. unfold Text.row_key. apply list_eq_Forall2, Forall2_fmap, Forall_Forall2_diag.
    apply Forall_forall. intros f Hf. destruct (H f Hf) as [E|[H1 H2]].
    + unfold Text.get_or_empty, Text.get. by rewrite E.
    + by rewrite !blank_field_strip.
  - intros rows1 r1 rows2 r2 rows3 E. unfold Text.dedupe_rows.
    replace (rows1 ++ r1 :: rows2 ++ r2 :: rows3)
      with ((rows1 ++ r1 :: rows2) ++ r2 :: rows3) by (by rewrite <- app_assoc).
    replace (rows1 ++ r1 :: rows2 ++ rows3)
      with ((rows1 ++ r1 :: rows2) ++ rows3) by (by rewrite <- app_assoc).
    apply dedupe_loop_skip. right.
    exists r1. split; [|done]. apply elem_of_app. right. by left.
  - intros rows1 r1 rows2 H. unfold Text.dedupe_rows.
    apply dedupe_loop_fresh; [apply not_elem_of_empty|done].
Qed.

Lemma dedupe_treats_blank_fields_alike_witness :
  Text.row_key ["name"; "website"] Samples.no_website
    = Text.row_key ["name"; "website"] Samples.spaces_website
  ∧ Text.dedupe_rows [Samples.no_website; Samples.none_website; Samples.spaces_website]
      ["name"; "website"]
    = Text.dedupe_rows [Samples.no_website; Samples.none_website] ["name"; "website"].
Proof.
  split.
  - apply (proj1 (proj2 (dedupe_treats_blank_fields_alike ["name"; "website"]))).
    intros f Hf.
    repeat (apply elem_of_cons in Hf as [->|Hf]; [by vm_compute; auto|]).
    by apply elem_of_nil in Hf.
  - apply (proj1 (proj2 (proj2 (dedupe_treats_blank_fields_alike ["name"; "website"])))
             [] Samples.no_website [Samples.none_website] Samples.spaces_website []).
    by vm_compute.
Defined.

(** * Further properties of the code *)

(** ** Trimming *)
Section StripFacts.
Import Text.

Lemma lstrip_length s : length (lstrip s) ≤ length s.
Proof.
  induction s as [|a s IH]; cbn [lstrip]; [done|].
  destruct (isspace a); simpl; lia.
Qed.

Lemma lstrip_nonspace c s : isspace c = false → lstrip (c :: s) = c :: s.
Proof. intros Hc. cbn [lstrip]. by rewrite Hc. Qed.

Lemma lstrip_idemp s : lstrip (lstrip s) = lstrip s.
Proof.
  induction s as [|a s IH]; cbn [lstrip]; [done|].
  destruct (isspace a) eqn:Ha; [done|]. by apply lstrip_nonspace.
Qed.

Lemma lstrip_snoc v c : isspace c = false → lstrip (v ++ [c]) = lstrip v ++ [c].
Proof.
  intros Hc. induction v as [|a v IH]; cbn [app lstrip].
  - by rewrite Hc.
  - by destruct (isspace a).
Qed.

Lemma rstrip_cons_nonspace c u : isspace c = false → rstrip (c :: u) = c :: rstrip u.
Proof.
  intros Hc. unfold rstrip. rewrite reverse_cons, lstrip_snoc by done.
  by rewrite reverse_app.
Qed.

Lemma rstrip_idemp s : rstrip (rstrip s) = rstrip s.
Proof. unfold rstrip. by rewrite reverse_involutive, lstrip_idemp. Qed.

(** Trimming on the right leaves a string that starts with a character that
    is not whitespace as it starts. *)
Lemma lstrip_rstrip s : lstrip (rstrip (lstrip s)) = rstrip (lstrip s).
Proof.
  destruct (lstrip s) as [|c t] eqn:E; [done|].
  apply lstrip_head in E. rewrite rstrip_cons_nonspace by done.
  by apply lstrip_nonspace.
Qed.

Lemma strip_idemp s : strip (strip s) = strip s.
Proof. unfold strip. by rewrite lstrip_rstrip, rstrip_idemp. Qed.

Lemma strip_first s c t : strip s = c :: t → isspace c = false.
Proof.
  intros E. apply (lstrip_head (strip s) c t). unfold strip in *.
  by rewrite lstrip_rstrip.
Qed.

Lemma strip_last s t c : strip s = t ++ [c] → isspace c = false.
Proof.
  intros E. apply (lstrip_head (reverse (strip s)) c (reverse t)).
  rewrite <- reverse_snoc, <- E. unfold strip, rstrip.
  by rewrite reverse_involutive, lstrip_idemp.
Qed.

Lemma strip_blank s : blank s → strip s = [].
Proof. apply strip_nil_iff. Qed.

End StripFacts.

(** X1.  What [normalize_name] returns, for every character database: the
    result is trimmed (trimming it again changes nothing, and it neither
    starts nor ends with whitespace), and each of its characters belongs to
    the class the last substitution keeps: a word character, whitespace,
    [&], [.] or [-]. *)
Theorem normalize_name_is_trimmed_and_clean (U : Text.UnicodeDB) (s : str) :
  Text.strip (Text.normalize_name s) = Text.normalize_name s
  ∧ (∀ c t, Text.normalize_name s = c :: t → Text.isspace c = false)
  ∧ (∀ t c, Text.normalize_name s = t ++ [c] → Text.isspace c = false)
  ∧ (∀ c, c ∈ Text.normalize_name s → Text.kept c = true).
Proof.
  unfold Text.normalize_name. repeat split.
  - apply strip_idemp.
  - intros c t. apply strip_first.
  - intros t c. apply strip_last.
  - intros c Hc%elem_of_strip. apply list_elem_of_filter in Hc as [Hc _].
    by apply Is_true_true.
Qed.

(** X2.  Empty or whitespace-only input normalizes to the empty string, for
    every character database that agrees with Python's on ASCII text (the
    empty string is lower case and in normal form). *)
Theorem normalize_name_blank (U : Text.UnicodeDB) (s : str) :
  Text.AsciiCompatible U → Text.blank s → Text.normalize_name s = [].
Proof.
  intros HU Hs. unfold Text.normalize_name. rewrite (strip_blank s Hs).
  rewrite (Text.lower_ascii U HU) by done. cbn [fmap list_fmap].
  by rewrite (Text.nfkd_ascii U HU).
Qed.

Lemma normalize_name_blank_witness :
  @Text.normalize_name Text.ascii_block (py "   ") = [].
Proof.
  apply (normalize_name_blank Text.ascii_block (py "   ") ascii_block_compatible).
  reflexivity.
Defined.

(** ** Normalizing again *)
Section NormalizeAgain.
Import Text.

Lemma lstrip_fixed_head c t : lstrip (c :: t) = c :: t → isspace c = false.
Proof.
  cbn [lstrip]. destruct (isspace c); [|done]. intros E.
  pose proof (lstrip_length t) as Hlen. rewrite E in Hlen. simpl in Hlen. lia.
Qed.

(** A string is its own trimming exactly when neither end is whitespace. *)
Lemma strip_fixed_iff x :
  strip x = x ↔ lstrip x = x ∧ lstrip (reverse x) = reverse x.
Proof.
  split.
  - intros E. split.
    + rewrite <- E at 1. unfold strip. rewrite lstrip_rstrip. exact E.
    + rewrite <- E. unfold strip, rstrip. by rewrite reverse_involutive, lstrip_idemp.
  - intros [E1 E2]. unfold strip, rstrip. by rewrite E1, E2, reverse_involutive.
Qed.

Lemma sub_ws_snoc b v d :
  isspace d = false → sub_ws_from b (v ++ [d]) = sub_ws_from b v ++ [d].
Proof.
  intros Hd. revert b. induction v as [|a v IH]; intros b; cbn [app sub_ws_from].
  - by rewrite Hd.
  - destruct (isspace a), b; by rewrite ?IH.
Qed.

Lemma sub_ws_idemp b s : sub_ws_from b (sub_ws_from b s) = sub_ws_from b s.
Proof.
  revert b. induction s as [|a s IH]; intros b; cbn [sub_ws_from]; [done|].
  destruct (isspace a) eqn:Ha.
  - destruct b; [apply IH|]. cbn [sub_ws_from].
    change (isspace 32) with true. cbn iota. by rewrite IH.
  - cbn [sub_ws_from]. by rewrite Ha, IH.
Qed.

(** Collapsing whitespace runs keeps a trimmed string trimmed. *)
Lemma strip_sub_ws t : strip t = t → strip (sub_ws t) = sub_ws t.
Proof.
  rewrite !strip_fixed_iff. intros [E1 E2]. unfold sub_ws. split.
  - destruct t as [|c t]; [done|]. apply lstrip_fixed_head in E1.
    cbn [sub_ws_from]. rewrite E1. by apply lstrip_nonspace.
  - destruct t as [|d v _] using rev_ind; [done|].
    rewrite reverse_snoc in E2. apply lstrip_fixed_head in E2.
    rewrite sub_ws_snoc, reverse_snoc by done. by apply lstrip_nonspace.
Qed.

Lemma ascii_lower_char_idemp c : ascii_lower_char (ascii_lower_char c) = ascii_lower_char c.
Proof.
  unfold ascii_lower_char. destruct ((65 <=? c)%N && (c <=? 90)%N) eqn:E; [|by rewrite E].
  apply andb_true_iff in E as [E1%N.leb_le E2%N.leb_le].
  destruct ((65 <=? c + 32)%N && (c + 32 <=? 90)%N) eqn:E'; [|done].
  apply andb_true_iff in E' as [_ E'%N.leb_le]. lia.
Qed.

(** A normalized string: trimmed, lower case, made of kept characters. *)
Lemma normalize_ascii_block_settled s c :
  c ∈ @normalize_name ascii_block s →
  ascii_lower_char c = c ∧ @kept ascii_block c = true.
Proof.
  unfold normalize_name. intros Hc%elem_of_strip.
  apply list_elem_of_filter in Hc as [Hk Hc]. split; [|by apply Is_true_true].
  apply elem_of_sub_ws in Hc as [->|Hc]; [done|].
  apply list_elem_of_filter in Hc as [_ Hc]. cbn [nfkd str_lower ascii_block id] in Hc.
  apply list_elem_of_fmap in Hc as (c' & -> & _). apply ascii_lower_char_idemp.
Qed.

(** On a trimmed, lower-case string of kept characters, [normalize_name]
    only collapses the whitespace runs. *)
Lemma normalize_ascii_block_on_settled t :
  strip t = t →
  (∀ c, c ∈ t → ascii_lower_char c = c ∧ @kept ascii_block c = true) →
  @normalize_name ascii_block t = sub_ws t.
Proof.
  intros Ht Hc. unfold normalize_name. rewrite Ht. cbn [nfkd str_lower ascii_block id].
  assert (ascii_lower_char <$> t = t) as ->.
  { rewrite <- (list_fmap_id t) at 2. apply list_fmap_ext. intros i c Hi.
    apply Hc. by eapply list_elem_of_lookup_2. }
  rewrite (filter_all (λ ch, @combining ascii_block ch = 0%N)) by done.
  rewrite filter_all; [by apply strip_sub_ws|].
  intros c [->|Hin]%elem_of_sub_ws; [done|]. apply Is_true_true. by apply Hc.
Qed.

Lemma normalize_ascii_block_settles s :
  @normalize_name ascii_block (@normalize_name ascii_block (@normalize_name ascii_block s))
  = @normalize_name ascii_block (@normalize_name ascii_block s).
Proof.
  set (t := @normalize_name ascii_block s).
  assert (Ht : strip t = t) by apply strip_idemp.
  assert (Hc : ∀ c, c ∈ t → ascii_lower_char c = c ∧ @kept ascii_block c = true)
    by (intros c; apply normalize_ascii_block_settled).
  rewrite (normalize_ascii_block_on_settled t Ht Hc).
  rewrite normalize_ascii_block_on_settled.
  - apply sub_ws_idemp.
  - by apply strip_sub_ws.
  - intros c [->|Hin]%elem_of_sub_ws; [done|by apply Hc].
Qed.

Lemma normalize_ascii_block_ascii s :
  ascii_text s → ascii_text (@normalize_name ascii_block s).
Proof.
  rewrite !ascii_text_elem. intros Hs c. unfold normalize_name.
  intros Hc%elem_of_strip. apply list_elem_of_filter in Hc as [_ Hc].
  apply elem_of_sub_ws in Hc as [->|Hc]; [done|].
  apply list_elem_of_filter in Hc as [_ Hc]. cbn [nfkd str_lower ascii_block id] in Hc.
  apply list_elem_of_fmap in Hc as (c' & -> & Hc'%elem_of_strip).
  by apply ascii_lower_char_ascii, Hs.
Qed.

End NormalizeAgain.

(** X3.  On ASCII text [normalize_name] reaches a fixed point after two
    applications at the latest: normalizing a twice-normalized name changes
    nothing, for every character database that agrees with Python's on ASCII
    text. *)
Theorem normalize_name_settles (U : Text.UnicodeDB) (s : str) :
  Text.AsciiCompatible U → Text.ascii_text s →
  Text.normalize_name (Text.normalize_name (Text.normalize_name s))
  = Text.normalize_name (Text.normalize_name s).
Proof.
  intros HU Hs.
  pose proof (normalize_ascii_block_ascii s Hs) as H1.
  pose proof (normalize_ascii_block_ascii _ H1) as H2.
  rewrite (normalize_name_ascii U s) by done.
  rewrite (normalize_name_ascii U _ HU H1).
  rewrite (normalize_name_ascii U _ HU H2).
  apply normalize_ascii_block_settles.
Qed.

Lemma normalize_name_settles_witness :
  @Text.normalize_name Text.ascii_block
    (@Text.normalize_name Text.ascii_block
       (@Text.normalize_name Text.ascii_block (py "R & D !  Co.")))
  = @Text.normalize_name Text.ascii_block
      (@Text.normalize_name Text.ascii_block (py "R & D !  Co.")).
Proof.
  apply (normalize_name_settles Text.ascii_block (py "R & D !  Co.")
           ascii_block_compatible).
  reflexivity.
Defined.

(** ** The deduplicator, continued *)
Section DedupeMore.
Import Text.
Context (key_fields : list string).

Lemma dedupe_loop_spec (rows : list (gmap string (option str))) :
  ∀ seen,
    NoDup (row_key key_fields <$> dedupe_loop key_fields seen rows)
    ∧ (∀ r, r ∈ dedupe_loop key_fields seen rows → row_key key_fields r ∉ seen)
    ∧ sublist (dedupe_loop key_fields seen rows) rows
    ∧ (∀ r, r ∈ rows →
         row_key key_fields r ∈ seen ∨
         row_key key_fields r ∈ row_key key_fields <$> dedupe_loop key_fields seen rows).
Proof.
  induction rows as [|a rows IH]; intros seen; cbn [dedupe_loop].
  - repeat split; [constructor|by intros r ?%elem_of_nil|done|by intros r ?%elem_of_nil].
  - destruct (decide (row_key key_fields a ∈ seen)) as [Ha|Ha].
    + destruct (IH seen) as (Hnd & Hseen & Hsub & Hcov). repeat split; [done|done| |].
      * by apply sublist_cons.
      * intros r [->|Hr]%elem_of_cons; [by left|by apply Hcov].
    + destruct (IH ({[row_key key_fields a]} ∪ seen)) as (Hnd & Hseen & Hsub & Hcov).
      repeat split.
      * cbn [fmap list_fmap]. constructor; [|done].
        intros (r & E & Hr)%list_elem_of_fmap. apply (Hseen r Hr).
        rewrite elem_of_union, elem_of_singleton. by left.
      * intros r [->|Hr]%elem_of_cons; [done|]. intros Hin. apply (Hseen r Hr).
        rewrite elem_of_union. by right.
      * by apply sublist_skip.
      * intros r [->|Hr]%elem_of_cons; [right; cbn [fmap list_fmap]; by left|].
        cbn [fmap list_fmap].
        destruct (Hcov r Hr) as [[E|?]%elem_of_union|?].
        -- rewrite elem_of_singleton in E. rewrite E. right. by left.
        -- by left.
        -- right. by right.
Qed.

Lemma dedupe_loop_distinct (l : list (gmap string (option str))) :
  ∀ seen,
    NoDup (row_key key_fields <$> l) →
    (∀ r, r ∈ l → row_key key_fields r ∉ seen) →
    dedupe_loop key_fields seen l = l.
Proof.
  induction l as [|a l IH]; intros seen Hnd Hseen; cbn [dedupe_loop]; [done|].
  cbn [fmap list_fmap] in Hnd. apply NoDup_cons in Hnd as [Ha Hnd].
  rewrite decide_False by (apply Hseen; by left). f_equal. apply IH; [done|].
  intros r Hr [E|Hin]%elem_of_union.
  - apply elem_of_singleton in E. apply Ha. rewrite <- E.
    apply list_elem_of_fmap. by exists r.
  - apply (Hseen r); [by right|done].
Qed.

Lemma dedupe_loop_all_seen (l : list (gmap string (option str))) seen :
  (∀ r, r ∈ l → row_key key_fields r ∈ seen) → dedupe_loop key_fields seen l = [].
Proof.
  induction l as [|a l IH]; intros Hseen; cbn [dedupe_loop]; [done|].
  rewrite decide_True by (apply Hseen; by left). apply IH. intros r Hr. apply Hseen. by right.
Qed.

End DedupeMore.

(** X4.  What [dedupe_rows] returns: a subsequence of the input, in input
    order, whose keys are pairwise distinct, and in which every key of the
    input is still present. *)
Theorem dedupe_rows_distinct_and_complete (rows : list (gmap string (option str)))
    (key_fields : list string) :
  sublist (Text.dedupe_rows rows key_fields) rows
  ∧ NoDup (Text.row_key key_fields <$> Text.dedupe_rows rows key_fields)
  ∧ (∀ r, r ∈ rows →
       ∃ r', r' ∈ Text.dedupe_rows rows key_fields ∧
             Text.row_key key_fields r' = Text.row_key key_fields r).
Proof.
  unfold Text.dedupe_rows.
  destruct (dedupe_loop_spec key_fields rows ∅) as (Hnd & _ & Hsub & Hcov).
  repeat split; [done|done|]. intros r Hr.
  destruct (Hcov r Hr) as [[]%not_elem_of_empty|(r' & E & Hr')%list_elem_of_fmap].
  by exists r'.
Qed.

(** X5.  [dedupe_rows] leaves a list whose keys are pairwise distinct as it
    is; in particular deduplicating twice on the same key fields is the same
    as deduplicating once. *)
Theorem dedupe_rows_idempotent (rows : list (gmap string (option str)))
    (key_fields : list string) :
  (NoDup (Text.row_key key_fields <$> rows) → Text.dedupe_rows rows key_fields = rows)
  ∧ Text.dedupe_rows (Text.dedupe_rows rows key_fields) key_fields
    = Text.dedupe_rows rows key_fields.
Proof.
  assert (Hid : ∀ l : list (gmap string (option str)),
             NoDup (Text.row_key key_fields <$> l) → Text.dedupe_rows l key_fields = l).
  { intros l Hl. unfold Text.dedupe_rows. apply dedupe_loop_distinct; [done|].
    intros r _. apply not_elem_of_empty. }
  split; [apply Hid|]. apply Hid.
  unfold Text.dedupe_rows.
  by destruct (dedupe_loop_spec key_fields rows ∅) as (Hnd & _).
Qed.

(** X6.  With no key fields every record has the empty key, so only the
    first record of a list survives. *)
Theorem dedupe_rows_without_key_fields (r : gmap string (option str))
    (rows : list (gmap string (option str))) :
  Text.dedupe_rows (r :: rows) [] = [r] ∧ Text.dedupe_rows [] [] = [].
Proof.
  split; [|done]. unfold Text.dedupe_rows. cbn [Text.dedupe_loop].
  rewrite decide_False by apply not_elem_of_empty. f_equal.
  apply dedupe_loop_all_seen. intros r' _. cbn.
  rewrite elem_of_union, elem_of_singleton. by left.
Qed.

(** ** The two filters of the pipeline *)
Section FilterMore.
Import Text Filter Notions.
Context {U : UnicodeDB}.

Lemma filter_relevant_filter (rows : list (gmap string (option str))) :
  filter_relevant rows = filter relevant rows.
Proof.
  induction rows as [|r rows IH]; [done|]. cbn [filter_relevant]. rewrite filter_cons.
  destruct (decide (str_lower (get_or_empty r "operator_label") = [])) as [E|E].
  { rewrite decide_False by (by intros [? _]). done. }
  destruct (keep (get r "category") _) eqn:K.
  - rewrite decide_True by done. by rewrite IH.
  - rewrite decide_False; [done|]. intros [_ K']. by rewrite K in K'.
Qed.

Lemma filter_to_ggc_filter (rows : list (gmap string (option str))) S :
  filter_to_ggc rows S = filter (in_ggc S) rows.
Proof. unfold filter_to_ggc. by apply list_filter_iff. Qed.

End FilterMore.

(** X7.  [filter_relevant] selects records one by one: it returns a
    subsequence of its input, running it twice is the same as running it
    once, it distributes over concatenation, and it commutes with
    [filter_to_ggc]. *)
Theorem filter_relevant_selects (U : Text.UnicodeDB)
    (rows rows' : list (gmap string (option str))) (ggc_country_qids : gset str) :
  sublist (Filter.filter_relevant rows) rows
  ∧ Filter.filter_relevant (Filter.filter_relevant rows) = Filter.filter_relevant rows
  ∧ Filter.filter_relevant (rows ++ rows')
    = Filter.filter_relevant rows ++ Filter.filter_relevant rows'
  ∧ Filter.filter_relevant (Filter.filter_to_ggc rows ggc_country_qids)
    = Filter.filter_to_ggc (Filter.filter_relevant rows) ggc_country_qids.
Proof.
  rewrite !filter_relevant_filter, !filter_to_ggc_filter. repeat split.
  - apply sublist_filter.
  - by apply list_filter_filter_l.
  - apply filter_app.
  - rewrite !list_filter_filter. apply list_filter_iff. tauto.
Qed.


(** X9.  [filter_to_ggc] keeps a record only if it has a [country_qid] whose
    trimmed value is not empty and belongs to the set; a record whose
    [country_qid] is absent, [None] or blank is dropped even when the empty
    string is in the set.  Filtering by two sets in turn is filtering by their
    intersection, and filtering by the empty set leaves nothing. *)
Theorem filter_to_ggc_selects (rows : list (gmap string (option str)))
    (qids1 qids2 : gset str) :
  (∀ r, r ∈ Filter.filter_to_ggc rows qids1 →
        r ∈ rows ∧
        ∃ cq, Text.get r "country_qid" = Some cq ∧ Text.strip cq ≠ [] ∧
              Text.strip cq ∈ qids1)
  ∧ (∀ r, Text.blank_field (r !! "country_qid") → r ∉ Filter.filter_to_ggc rows qids1)
  ∧ Filter.filter_to_ggc (Filter.filter_to_ggc rows qids1) qids2
    = Filter.filter_to_ggc rows (qids1 ∩ qids2)
  ∧ Filter.filter_to_ggc rows ∅ = [].
Proof.
  rewrite !filter_to_ggc_filter. split; [|split; [|split]].
  - intros r [[Hne Hin] Hr]%list_elem_of_filter. split; [done|].
    unfold Text.get_or_empty in *. destruct (Text.get r "country_qid") as [cq|]; [|done].
    by exists cq.
  - intros r Hb [[Hne _] _]%list_elem_of_filter. apply Hne.
    by apply blank_field_strip.
  - rewrite list_filter_filter. apply list_filter_iff. intros r.
    unfold Notions.in_ggc. rewrite elem_of_intersection. tauto.
  - induction rows as [|r rows IH]; [done|]. rewrite filter_cons_False; [done|].
    intros [_ []%not_elem_of_empty].
Qed.

(** ** The knowledge-graph fetcher, continued *)
Section WikidataMore.
Import Text Wikidata Notions.
Context {U : UnicodeDB}.
Context (normalize_for_match : str → str).
Context (endpoint : nat → query → result (list (gmap string (gmap string str)))).

(** The loop of [_sparql], whatever the endpoint does: the number [n] of
    failed attempts that were followed by a pause. *)
Lemma sparql_loop_bound q backoff_s :
  ∀ remaining attempt last_err w,
    ∃ n, slept (_sparql_loop endpoint q backoff_s attempt remaining last_err w).1
           = slept w ++ backoffs backoff_s attempt n ∧
         match (_sparql_loop endpoint q backoff_s attempt remaining last_err w).2 with
         | Ok data =>
             n < remaining ∧
             calls (_sparql_loop endpoint q backoff_s attempt remaining last_err w).1
               = calls w + S n ∧
             endpoint (calls w + n) q = Ok data
         | Raise e =>
             n = remaining ∧
             calls (_sparql_loop endpoint q backoff_s attempt remaining last_err w).1
               = calls w + remaining ∧
             (remaining = 0 → e = default TypeError last_err) ∧
             (0 < remaining → endpoint (calls w + remaining - 1) q = Raise e)
         end.
Proof.
  induction remaining as [|remaining IH]; intros attempt last_err w; cbn [_sparql_loop].
  - exists 0. unfold backoffs. cbn [seq fmap list_fmap]. rewrite app_nil_r.
    destruct last_err as [e|]; cbn; (split; [done|]); repeat split; try done; lia.
  - unfold catch, call. destruct (endpoint (calls w) q) as [data|e] eqn:E.
    + exists 0. unfold backoffs. cbn. rewrite app_nil_r, Nat.add_0_r.
      repeat split; try done; lia.
    + unfold mbind, M_bind, bind, sleep. cbn [calls slept].
      set (w1 := {| calls := S (calls w);
                    slept := slept w ++ [(backoff_s * float_of_nat attempt)%float] |}).
      destruct (IH (S attempt) (Some e) w1) as (n & Hs & Hr). exists (S n).
      split.
      { rewrite Hs. unfold backoffs. cbn [seq fmap list_fmap w1 slept].
        by rewrite <- app_assoc. }
      destruct (_sparql_loop endpoint q backoff_s (S attempt) remaining (Some e) w1).2
        as [data|e'].
      * destruct Hr as (Hn & Hc & He). cbn [calls w1] in *. repeat split; [lia|lia|].
        rewrite <- He. f_equal. lia.
      * destruct Hr as (-> & Hc & H0 & Hpos). cbn [calls w1] in *.
        repeat split; [lia|lia|]. intros _. destruct remaining as [|m].
        -- rewrite (H0 eq_refl). cbn. rewrite <- E. f_equal. lia.
        -- rewrite <- Hpos by lia. f_equal. lia.
Qed.

(** When the loop of [_sparql] returns: the attempts before the last one
    failed, the last one was answered, and each failure was followed by its
    pause. *)
Lemma sparql_loop_returns q backoff_s :
  ∀ remaining attempt last_err w w' data,
    _sparql_loop endpoint q backoff_s attempt remaining last_err w = (w', Ok data) →
    ∃ n, n < remaining ∧
         (∀ i, i < n → ∃ e, endpoint (calls w + i) q = Raise e) ∧
         endpoint (calls w + n) q = Ok data ∧
         calls w' = calls w + S n ∧
         slept w' = slept w ++ backoffs backoff_s attempt n.
Proof.
  induction remaining as [|remaining IH]; intros attempt last_err w w' data;
    cbn [_sparql_loop].
  - by destruct last_err.
  - unfold catch, call. destruct (endpoint (calls w) q) as [d|e] eqn:E.
    + intros [= <- <-]. exists 0. split; [lia|]. split; [intros i; lia|].
      rewrite Nat.add_0_r. split; [done|]. cbn [calls slept]. split; [lia|].
      unfold backoffs. cbn [seq fmap list_fmap]. by rewrite app_nil_r.
    + intros (w1 & [] & Hsleep & H)%bind_inv_ok. unfold sleep in Hsleep.
      injection Hsleep as <-.
      apply IH in H as (n & Hn & Hfail & Hok & Hcalls & Hslept).
      cbn [calls slept] in *. exists (S n). split; [lia|]. split; [|split; [|split]].
      * intros [|i] Hi; [rewrite Nat.add_0_r; eauto|].
        destruct (Hfail i ltac:(lia)) as [e' He']. exists e'. rewrite <- He'. f_equal. lia.
      * rewrite <- Hok. f_equal. lia.
      * lia.
      * rewrite Hslept. unfold backoffs. cbn [seq fmap list_fmap].
        by rewrite <- app_assoc.
Qed.

(** When the fetcher returns: its category has a setup, the query was
    answered at the attempt after [n < 3] failures, the result is what
    [kw_match] keeps of the records built from that answer, and the pauses are
    those of the failures followed by [sleep_s]. *)
Lemma fetch_returns country_qid category sleep_s limit w w' out :
  fetch_candidates_for_country normalize_for_match endpoint
      country_qid category sleep_s limit w = (w', Ok out) →
  ∃ strict_types fallback_types kw n bs,
    category_setup category = Some (strict_types, fallback_types, kw) ∧
    n < 3 ∧
    (∀ i, i < n →
       ∃ e, endpoint (calls w + i)
              (mkQuery country_qid (fromkeys (strict_types ++ fallback_types)) limit)
            = Raise e) ∧
    endpoint (calls w + n)
      (mkQuery country_qid (fromkeys (strict_types ++ fallback_types)) limit) = Ok bs ∧
    out = filter (λ r, kw_match normalize_for_match kw r) (rows_of_bindings category bs) ∧
    elapsed w w' (S n) (backoffs 2 1 n ++ [sleep_s]).
Proof.
  unfold fetch_candidates_for_country.
  destruct (category_setup category) as [[[st fb] kw]|]; [|done].
  intros (w1 & rows & Hrun & Hret)%bind_inv_ok. injection Hret as <- <-.
  unfold run in Hrun.
  apply bind_inv_ok in Hrun as (w2 & data & Hq & Hrun).
  apply bind_inv_ok in Hrun as (w3 & [] & Hsleep & Hrun).
  injection Hrun as <- <-. unfold sleep in Hsleep. injection Hsleep as <-.
  apply sparql_loop_returns in Hq as (n & Hn & Hfail & Hok & Hcalls & Hslept).
  exists st, fb, kw, n, data. split; [done|]. split; [done|]. split; [done|].
  split; [done|]. split; [done|]. unfold elapsed. cbn [calls slept].
  split; [done|]. by rewrite Hslept, <- app_assoc.
Qed.

(** When all three attempts fail: the fetcher raises the error of the third,
    after three requests and their three pauses. *)
Lemma fetch_exhausted country_qid category sleep_s limit w strict_types fallback_types kw :
  category_setup category = Some (strict_types, fallback_types, kw) →
  (∀ i, i < 3 →
     ∃ e, endpoint (calls w + i)
            (mkQuery country_qid (fromkeys (strict_types ++ fallback_types)) limit)
          = Raise e) →
  ∃ w' e,
    fetch_candidates_for_country normalize_for_match endpoint
        country_qid category sleep_s limit w = (w', Raise e) ∧
    endpoint (calls w + 2)
      (mkQuery country_qid (fromkeys (strict_types ++ fallback_types)) limit) = Raise e ∧
    elapsed w w' 3 (backoffs 2 1 3).
Proof.
  intros Hcat Hfail. unfold fetch_candidates_for_country. rewrite Hcat.
  unfold run, _sparql.
  set (q := mkQuery country_qid (fromkeys (strict_types ++ fallback_types)) limit) in *.
  destruct (sparql_loop_bound q 2 3 1 None w) as (n & Hs & Hr).
  destruct (_sparql_loop endpoint q 2 1 3 None w) as [w1 [data|e]] eqn:Hloop;
    cbn [fst snd] in *.
  - destruct Hr as (Hn & _ & Hok). destruct (Hfail n Hn) as [e He]. congruence.
  - destruct Hr as (-> & Hc & _ & He). exists w1, e.
    split; [by erewrite bind_raise; [|erewrite bind_raise; [|exact Hloop]]|].
    split; [rewrite <- (He ltac:(lia)); f_equal; lia|].
    unfold elapsed. split; [done|exact Hs].
Qed.

(** [rsplit_last s] is what follows the last slash of [s]. *)
Lemma rsplit_last_spec s :
  ((0x2F%N ∉ s) ∧ rsplit_last s = s) ∨ ∃ pre, s = pre ++ 0x2F%N :: rsplit_last s.
Proof.
  induction s as [|c s IH]; cbn [rsplit_last].
  - left. split; [by intros ?%elem_of_nil|done].
  - case_bool_decide as Hin; [|by left]. right.
    destruct IH as [[Hno ->]|[pre Hpre]].
    + apply elem_of_cons in Hin as [<-|Hin]; [by exists []|done].
    + exists (c :: pre). cbn [app]. by rewrite <- Hpre.
Qed.

Lemma rsplit_last_no_slash s : 0x2F%N ∉ rsplit_last s.
Proof.
  induction s as [|c s IH]; cbn [rsplit_last]; [by intros ?%elem_of_nil|].
  by case_bool_decide.
Qed.

Lemma rsplit_last_suffix s : rsplit_last s `suffix_of` s.
Proof.
  induction s as [|c s IH]; cbn [rsplit_last]; [done|].
  case_bool_decide; [by apply suffix_cons_r|done].
Qed.

Lemma rows_of_bindings_elem category bs r :
  r ∈ rows_of_bindings category bs →
  ∃ b item, b ∈ bs ∧ _v (b !! "item") = Some item ∧ item ≠ [] ∧
            r = row_of_binding category b item.
Proof.
  induction bs as [|b bs IH]; cbn [rows_of_bindings]; [by intros ?%elem_of_nil|].
  destruct (_v (b !! "item")) as [[|c item]|] eqn:E.
  - intros (b' & item' & ? & ?)%IH. exists b', item'. split; [by right|done].
  - intros [->|(b' & item' & ? & ?)%IH]%elem_of_cons.
    + exists b, (c :: item). split; [by left|done].
    + exists b', item'. split; [by right|done].
  - intros (b' & item' & ? & ?)%IH. exists b', item'. split; [by right|done].
Qed.

Lemma rows_of_bindings_length category bs :
  length (rows_of_bindings category bs) ≤ length bs.
Proof.
  induction bs as [|b bs IH]; cbn [rows_of_bindings]; [done|].
  destruct (_v (b !! "item")) as [[|c item]|]; simpl; lia.
Qed.

End WikidataMore.

(** X10.  [_sparql] never makes more than [retries] requests, whatever the
    endpoint does.  It returns the answer of its last request after [n <
    retries] failed attempts, or raises after [retries] failed attempts; in
    both cases the pauses taken are exactly [backoff_s * 1, ..., backoff_s *
    n], one after each failed attempt.  The error raised is the one of the
    last request, except that with [retries = 0] no request is made and
    [raise None] gives a [TypeError]. *)
Theorem sparql_request_bound
    (endpoint : nat → Wikidata.query → result (list (gmap string (gmap string str))))
    (q : Wikidata.query) (retries : nat) (backoff_s : float) (w : World) :
  ∃ n,
    slept (Wikidata._sparql endpoint q retries backoff_s w).1
      = slept w ++ ((λ attempt, backoff_s * float_of_nat attempt)%float <$> seq 1 n) ∧
    match (Wikidata._sparql endpoint q retries backoff_s w).2 with
    | Ok data =>
        n < retries ∧
        calls (Wikidata._sparql endpoint q retries backoff_s w).1 = calls w + S n ∧
        endpoint (calls w + n) q = Ok data
    | Raise e =>
        n = retries ∧
        calls (Wikidata._sparql endpoint q retries backoff_s w).1 = calls w + retries ∧
        (retries = 0 → e = TypeError) ∧
        (0 < retries → endpoint (calls w + retries - 1) q = Raise e)
    end.
Proof.
  unfold Wikidata._sparql.
  destruct (sparql_loop_bound endpoint q backoff_s retries 1 None w) as (n & Hs & Hr).
  exists n. split; [exact Hs|]. exact Hr.
Qed.

Section RecordFacts.
Import Text Wikidata Notions.

Lemma row_of_binding_fields category (b : gmap string (gmap string str)) item :
  get (row_of_binding category b item) "source" = Some (py "wikidata")
  ∧ get (row_of_binding category b item) "category" = Some category
  ∧ get (row_of_binding category b item) "operator_qid" = Some (rsplit_last item)
  ∧ get (row_of_binding category b item) "operator_label" = _v (b !! "itemLabel")
  ∧ get (row_of_binding category b item) "description_en" = _v (b !! "desc")
  ∧ dom (row_of_binding category b item) = record_keys.
Proof.
  unfold get, row_of_binding. repeat split; reflexivity.
Qed.

End RecordFacts.

(** X11.  Pacing of the fetcher for a category it knows.  Whenever it
    returns, the first [n] of its requests failed with [n < 3] and request
    [n + 1] was answered; it paused [2.0 * 1, ..., 2.0 * n] after the failed
    ones and [sleep_s] once, after the answer.  When three requests in a row
    fail, it raises the error of the third after exactly three requests and
    the pauses 2.0, 4.0 and 6.0, without pausing [sleep_s]. *)
Theorem fetcher_pacing (U : Text.UnicodeDB) (normalize_for_match : str → str)
    (endpoint : nat → Wikidata.query → result (list (gmap string (gmap string str))))
    (country_qid category : str) (sleep_s : float) (limit : Z) (w : World)
    (strict_types fallback_types kw : list str) :
  Wikidata.category_setup category = Some (strict_types, fallback_types, kw) →
  (∀ w' out,
     Wikidata.fetch_candidates_for_country normalize_for_match endpoint
         country_qid category sleep_s limit w = (w', Ok out) →
     ∃ n bs,
       n < 3 ∧
       (∀ i, i < n →
          ∃ e, endpoint (calls w + i)
                 (Wikidata.mkQuery country_qid
                    (Wikidata.fromkeys (strict_types ++ fallback_types)) limit) = Raise e) ∧
       endpoint (calls w + n)
         (Wikidata.mkQuery country_qid
            (Wikidata.fromkeys (strict_types ++ fallback_types)) limit) = Ok bs ∧
       calls w' = calls w + S n ∧
       slept w' = slept w ++ Wikidata.backoffs 2 1 n ++ [sleep_s])
  ∧
  ((∀ i, i < 3 →
      ∃ e, endpoint (calls w + i)
             (Wikidata.mkQuery country_qid
                (Wikidata.fromkeys (strict_types ++ fallback_types)) limit) = Raise e) →
   ∃ w' e,
     Wikidata.fetch_candidates_for_country normalize_for_match endpoint
         country_qid category sleep_s limit w = (w', Raise e) ∧
     endpoint (calls w + 2)
       (Wikidata.mkQuery country_qid
          (Wikidata.fromkeys (strict_types ++ fallback_types)) limit) = Raise e ∧
     calls w' = calls w + 3 ∧
     slept w' = slept w ++ Wikidata.backoffs 2 1 3).
Proof.
  intros Hcat. split.
  - intros w' out (st & fb & kw' & n & bs & Hcat' & Hn & Hfail & Hok & _ & Hel)%fetch_returns.
    rewrite Hcat in Hcat'. injection Hcat' as <- <- <-.
    destruct Hel as [Hcalls Hslept]. by exists n, bs.
  - intros Hfail.
    destruct (fetch_exhausted normalize_for_match endpoint country_qid category sleep_s
                limit w strict_types fallback_types kw Hcat Hfail)
      as (w' & e & Hrun & He & Hcalls & Hslept).
    by exists w', e.
Qed.

Lemma fetcher_pacing_witness :
  (∀ w' out,
     Wikidata.fetch_candidates_for_country (U:=Text.ascii_block)
         (Text.normalize_for_match (U:=Text.ascii_block)) Samples.flaky
         (py "Q114") (py "Ministry") 0.8 2000 Samples.w0 = (w', Ok out) →
     ∃ n bs,
       n < 3 ∧
       (∀ i, i < n →
          ∃ e, Samples.flaky (calls Samples.w0 + i)
                 (Wikidata.mkQuery (py "Q114")
                    (Wikidata.fromkeys ([py "Q19973795"] ++ [py "Q1805337"])) 2000) = Raise e) ∧
       Samples.flaky (calls Samples.w0 + n)
         (Wikidata.mkQuery (py "Q114")
            (Wikidata.fromkeys ([py "Q19973795"] ++ [py "Q1805337"])) 2000) = Ok bs ∧
       calls w' = calls Samples.w0 + S n ∧
       slept w' = slept Samples.w0 ++ Wikidata.backoffs 2 1 n ++ [0.8%float])
  ∧
  ((∀ i, i < 3 →
      ∃ e, Samples.flaky (calls Samples.w0 + i)
             (Wikidata.mkQuery (py "Q114")
                (Wikidata.fromkeys ([py "Q19973795"] ++ [py "Q1805337"])) 2000) = Raise e) →
   ∃ w' e,
     Wikidata.fetch_candidates_for_country (U:=Text.ascii_block)
         (Text.normalize_for_match (U:=Text.ascii_block)) Samples.flaky
         (py "Q114") (py "Ministry") 0.8 2000 Samples.w0 = (w', Raise e) ∧
     Samples.flaky (calls Samples.w0 + 2)
       (Wikidata.mkQuery (py "Q114")
          (Wikidata.fromkeys ([py "Q19973795"] ++ [py "Q1805337"])) 2000) = Raise e ∧
     calls w' = calls Samples.w0 + 3 ∧
     slept w' = slept Samples.w0 ++ Wikidata.backoffs 2 1 3).
Proof.
  apply (fetcher_pacing Text.ascii_block (Text.normalize_for_match (U:=Text.ascii_block))
           Samples.flaky (py "Q114") (py "Ministry") 0.8 2000 Samples.w0
           [py "Q19973795"] [py "Q1805337"] [py "energy"; py "electricity"; py "power"]).
  reflexivity.
Defined.

(** X12.  Every record the fetcher returns is built from a binding of the
    answer to the fetcher's query (the requested country, the strict and
    fallback types of the category, the limit), given at one of its at most
    three requests.  The binding's [item] is set; the record's [source] is
    "wikidata", its [category] is the requested category, it has exactly the
    ten keys of a record, and its [operator_qid] is the part of the item URI
    after its last slash: it contains no slash, and the URI is either the
    identifier itself or ends in a slash followed by it.  The fetcher never
    returns more records than the answer has bindings. *)
Theorem fetched_records_are_well_formed (U : Text.UnicodeDB)
    (normalize_for_match : str → str)
    (endpoint : nat → Wikidata.query → result (list (gmap string (gmap string str))))
    (country_qid category : str) (sleep_s : float) (limit : Z)
    (w w' : World) (out : list (gmap string (option str))) :
  Wikidata.fetch_candidates_for_country normalize_for_match endpoint
      country_qid category sleep_s limit w = (w', Ok out) →
  ∃ strict_types fallback_types kw n bs,
    Wikidata.category_setup category = Some (strict_types, fallback_types, kw) ∧
    n < 3 ∧
    endpoint (calls w + n)
      (Wikidata.mkQuery country_qid
         (Wikidata.fromkeys (strict_types ++ fallback_types)) limit) = Ok bs ∧
    length out ≤ length bs ∧
    ∀ r, r ∈ out →
      Text.get r "source" = Some (py "wikidata") ∧
      Text.get r "category" = Some category ∧
      dom r = Notions.record_keys ∧
      ∃ b item qid,
        b ∈ bs ∧ Wikidata._v (b !! "item") = Some item ∧ item ≠ [] ∧
        Text.get r "operator_qid" = Some qid ∧
        (0x2F%N ∉ qid) ∧
        (item = qid ∨ ∃ pre, item = pre ++ 0x2F%N :: qid).
Proof.
  intros (st & fb & kw & n & bs & Hcat & Hn & _ & Hok & -> & _)%fetch_returns.
  exists st, fb, kw, n, bs.
  split; [done|]. split; [done|]. split; [done|]. split.
  - etransitivity; [apply length_filter|apply rows_of_bindings_length].
  - intros r [_ Hr]%list_elem_of_filter.
    apply rows_of_bindings_elem in Hr as (b & item & Hb & Hv & Hi & ->).
    destruct (row_of_binding_fields category b item) as (Hsrc & Hcat' & Hqid & _ & _ & Hdom).
    split; [exact Hsrc|]. split; [exact Hcat'|]. split; [exact Hdom|].
    exists b, item, (Wikidata.rsplit_last item).
    split; [exact Hb|]. split; [exact Hv|]. split; [exact Hi|]. split; [exact Hqid|].
    split; [apply rsplit_last_no_slash|].
    destruct (rsplit_last_spec item) as [[_ E]|Hpre]; [by left|by right].
Qed.

Lemma fetched_records_are_well_formed_witness :
  ∃ strict_types fallback_types kw n bs,
    Wikidata.category_setup (py "Ministry") = Some (strict_types, fallback_types, kw) ∧
    n < 3 ∧
    Samples.two_companies (calls Samples.w0 + n)
      (Wikidata.mkQuery (py "Q114")
         (Wikidata.fromkeys (strict_types ++ fallback_types)) 2000) = Ok bs ∧
    length [Samples.kenya_power_row; Samples.unlabelled_row] ≤ length bs ∧
    ∀ r, r ∈ [Samples.kenya_power_row; Samples.unlabelled_row] →
      Text.get r "source" = Some (py "wikidata") ∧
      Text.get r "category" = Some (py "Ministry") ∧
      dom r = Notions.record_keys ∧
      ∃ b item qid,
        b ∈ bs ∧ Wikidata._v (b !! "item") = Some item ∧ item ≠ [] ∧
        Text.get r "operator_qid" = Some qid ∧
        (0x2F%N ∉ qid) ∧
        (item = qid ∨ ∃ pre, item = pre ++ 0x2F%N :: qid).
Proof.
  apply (fetched_records_are_well_formed Text.ascii_block
           (Text.normalize_for_match (U:=Text.ascii_block)) Samples.two_companies
           (py "Q114") (py "Ministry") 0.8 2000 Samples.w0
           {| calls := 1; slept := [0.8%float] |}
           [Samples.kenya_power_row; Samples.unlabelled_row]).
  vm_refl.
Defined.

(** ** Response parsing, continued *)
Section ParseMore.
Import Text Seeds.

Lemma field_trimmed it k : strip (field it k) = field it k.
Proof.
  unfold field. destruct (dict_get it k) as [[]|]; try done. apply strip_idemp.
Qed.

Lemma coerced_trimmed c : strip c = c → strip (coerced c) = coerced c.
Proof. unfold coerced. by case_decide. Qed.

Lemma parse_items_length items out :
  parse_items items = Ok out → length out ≤ length items.
Proof.
  revert out. induction items as [|e items IH]; intros out; cbn [parse_items].
  - by intros [= <-].
  - destruct (parse_item e) as [o|]; [|done].
    destruct (parse_items items) as [out'|]; [|done]. simpl. intros [= <-].
    specialize (IH out' eq_refl). destruct o; simpl; lia.
Qed.

End ParseMore.

(** X13.  What [_safe_parse_items] returns, when it returns: never more
    items than the response lists, each with all six fields trimmed (no
    leading or trailing whitespace); text that is not JSON gives no item. *)
Theorem parsed_items_are_trimmed (loaded : option Seeds.json) (out : list Seeds.Item) :
  Seeds._safe_parse_items loaded = Ok out →
  (loaded = None → out = [])
  ∧ (∀ d items, loaded = Some (Seeds.JObj d) →
       Seeds.dict_get d "items" = Some (Seeds.JArr items) →
       length out ≤ length items)
  ∧ (∀ x, x ∈ out →
       Text.strip (Seeds.name x) = Seeds.name x ∧
       Text.strip (Seeds.also_known_as x) = Seeds.also_known_as x ∧
       Text.strip (Seeds.official_website x) = Seeds.official_website x ∧
       Text.strip (Seeds.confidence x) = Seeds.confidence x ∧
       Text.strip (Seeds.evidence x) = Seeds.evidence x ∧
       Text.strip (Seeds.comment x) = Seeds.comment x).
Proof.
  intros Hp. split; [|split].
  - intros ->. by injection Hp as <-.
  - intros d items -> Hd. unfold Seeds._safe_parse_items in Hp. rewrite Hd in Hp.
    by apply parse_items_length.
  - intros x Hx.
    destruct (safe_parse_items_elem _ _ x Hp Hx) as (d & items & it & _ & _ & _ & -> & _).
    cbn [Seeds.item_of Seeds.name Seeds.also_known_as Seeds.official_website
         Seeds.confidence Seeds.evidence Seeds.comment].
    repeat split; try apply field_trimmed. apply coerced_trimmed, field_trimmed.
Qed.

Lemma parsed_items_are_trimmed_witness :
  (Some Samples.padded_response = None → [Samples.ofgem; Samples.ofwat] = [])
  ∧ (∀ d items, Some Samples.padded_response = Some (Seeds.JObj d) →
       Seeds.dict_get d "items" = Some (Seeds.JArr items) →
       length [Samples.ofgem; Samples.ofwat] ≤ length items)
  ∧ (∀ x, x ∈ [Samples.ofgem; Samples.ofwat] →
       Text.strip (Seeds.name x) = Seeds.name x ∧
       Text.strip (Seeds.also_known_as x) = Seeds.also_known_as x ∧
       Text.strip (Seeds.official_website x) = Seeds.official_website x ∧
       Text.strip (Seeds.confidence x) = Seeds.confidence x ∧
       Text.strip (Seeds.evidence x) = Seeds.evidence x ∧
       Text.strip (Seeds.comment x) = Seeds.comment x).
Proof.
  apply (parsed_items_are_trimmed (Some Samples.padded_response)
           [Samples.ofgem; Samples.ofwat]).
  by vm_compute.
Defined.

(** ** The run, continued *)
Section RunMore.
Import Text Seeds Notions.
Context (normalize_for_match : str → str)
        (client : nat → request → result (option json))
        (args : Args).

Local Abbreviation keys_ok := (Notions.keys_ok normalize_for_match args).

Lemma emit_keys_ok manual_keys country cat_key st it :
  keys_ok manual_keys st →
  keys_ok manual_keys (emit normalize_for_match args manual_keys country cat_key st it).
Proof.
  intros (Hnd & Hseen & Hok). unfold emit. destruct st as [seen_keys rows].
  cbn [fst snd] in *.
  destruct (decide (normalize_for_match (name it) = [])) as [Hk|Hk]; [done|].
  destruct (decide (normalize_for_match (name it) ∈ seen_keys)) as [Hs|Hs]; [done|].
  destruct (args_dedupe_against_manual args && _) eqn:Hm; [done|].
  split; [|split]; cbn [fst snd].
  - rewrite fmap_app. apply NoDup_app. split; [done|]. split.
    + intros k (r & -> & Hr)%list_elem_of_fmap [E|[]%elem_of_nil]%elem_of_cons.
      apply Hs. unfold seed_key in E. cbn in E. rewrite <- E. by apply Hseen.
    + cbn. apply NoDup_singleton.
  - intros r [Hr|[->|[]%elem_of_nil]%elem_of_cons]%elem_of_app;
      rewrite elem_of_union, elem_of_singleton; [right; by apply Hseen|by left].
  - intros r [Hr|[->|[]%elem_of_nil]%elem_of_cons]%elem_of_app; [by apply Hok|].
    unfold seed_key. cbn. split; [done|]. intros Hflag Hin.
    rewrite Hflag in Hm. cbn in Hm. by apply bool_decide_eq_false in Hm.
Qed.

Lemma emit_appends manual_keys country cat_key st it :
  ∃ g, (emit normalize_for_match args manual_keys country cat_key st it).2 = st.2 ++ g
       ∧ Forall (tagged country cat_key) g.
Proof.
  unfold emit. destruct st as [seen_keys rows]. cbn [snd].
  repeat case_match; try (exists []; by rewrite app_nil_r).
  eexists [_]. split; [reflexivity|]. by repeat constructor.
Qed.

Lemma foldl_emit manual_keys country cat_key items :
  ∀ st,
    keys_ok manual_keys st →
    keys_ok manual_keys
      (foldl (emit normalize_for_match args manual_keys country cat_key) st items)
    ∧ ∃ g, (foldl (emit normalize_for_match args manual_keys country cat_key) st items).2
             = st.2 ++ g
           ∧ Forall (tagged country cat_key) g.
Proof.
  induction items as [|it items IH]; intros st Hst; cbn [foldl].
  - split; [done|]. exists []. by rewrite app_nil_r.
  - destruct (IH _ (emit_keys_ok manual_keys country cat_key st it Hst)) as (Hk & g & E & Hg).
    split; [done|].
    destruct (emit_appends manual_keys country cat_key st it) as (g0 & E0 & Hg0).
    exists (g0 ++ g). rewrite E, E0, <- app_assoc. split; [done|]. by apply Forall_app.
Qed.

Lemma elapsed_refl w : elapsed w w 0 [].
Proof. unfold elapsed. by rewrite Nat.add_0_r, app_nil_r. Qed.

Lemma elapsed_trans w w1 w2 n m p q :
  elapsed w w1 n p → elapsed w1 w2 m q → elapsed w w2 (n + m) (p ++ q).
Proof.
  unfold elapsed. intros [-> ->] [-> ->]. split; [lia|by rewrite app_assoc].
Qed.

Lemma call_chatgpt_elapsed country cat_key cat_desc model max_items temperature w w' items :
  call_chatgpt client country cat_key cat_desc model max_items temperature w = (w', Ok items) →
  elapsed w w' 1 [].
Proof.
  unfold call_chatgpt. intros (w1 & resp & Hc & [_ ->]%lift_inv)%bind_inv_ok.
  unfold call in Hc. injection Hc as <- _. unfold elapsed. cbn. by rewrite Nat.add_1_r, app_nil_r.
Qed.

Lemma verify_loop_elapsed country cat_key cat_desc items :
  ∀ w w' verified,
    verify_loop client args country cat_key cat_desc items w = (w', Ok verified) →
    elapsed w w' (length items) (replicate (length items) (args_sleep args)).
Proof.
  induction items as [|it items IH]; intros w w' verified; cbn [verify_loop].
  - intros [= <- _]. apply elapsed_refl.
  - intros (w1 & v & Hv & H)%bind_inv_ok.
    apply bind_inv_ok in H as (w2 & [] & Hs & H).
    apply bind_inv_ok in H as (w3 & rest & Hrest%IH & H). injection H as <- _.
    apply verify_item_inv in Hv as (_ & _ & _ & _ & _ & ->).
    unfold sleep in Hs. injection Hs as <-.
    destruct Hrest as [Hc Hsl]. cbn [calls slept] in *. unfold elapsed.
    rewrite Hc, Hsl. cbn [length replicate]. split; [lia|]. by rewrite <- app_assoc.
Qed.

(** One country and category: the rows grow by rows tagged with them, the
    keys stay in order, and every call is followed by one pause. *)
Lemma seed_category_spec manual_keys country st cat w w' st' :
  keys_ok manual_keys st →
  seed_category normalize_for_match client args manual_keys country st cat w = (w', Ok st') →
  keys_ok manual_keys st'
  ∧ (∃ g, st'.2 = st.2 ++ g ∧ Forall (tagged country cat.1) g)
  ∧ ∃ n, elapsed w w' n (replicate n (args_sleep args)) ∧ 1 ≤ n ∧
         (args_verify args = false → n = 1).
Proof.
  intros Hst. unfold seed_category. destruct cat as [cat_key cat_desc].
  intros (w1 & items & Hcall%call_chatgpt_elapsed & H)%bind_inv_ok.
  apply bind_inv_ok in H as (w2 & items' & Hv & H).
  apply bind_inv_ok in H as (w3 & [] & Hs & H). injection H as <- <-.
  unfold sleep in Hs. injection Hs as <-.
  destruct (foldl_emit manual_keys country cat_key items' st Hst) as (Hk & Hg).
  split; [done|]. split; [done|].
  assert (∃ k, elapsed w1 w2 k (replicate k (args_sleep args)) ∧
               (args_verify args = false → k = 0)) as (k & Hk2 & Hk0).
  { destruct (args_verify args && negb (bool_decide (items = []))) eqn:Hflag.
    - exists (length items). split; [by eapply verify_loop_elapsed|].
      intros Hf. by rewrite Hf in Hflag.
    - injection Hv as <- _. exists 0. split; [apply elapsed_refl|done]. }
  exists (S k). split; [|split; [lia|intros Hf; by rewrite (Hk0 Hf)]].
  pose proof (elapsed_trans _ _ _ _ _ _ _ Hcall Hk2) as [Hc Hsl].
  unfold elapsed. cbn [calls slept]. rewrite Hc, Hsl. split; [lia|].
  cbn [app]. rewrite <- app_assoc. f_equal.
  change (args_sleep args :: replicate k (args_sleep args))
    with (replicate (S k) (args_sleep args)).
  by rewrite replicate_S_end.
Qed.

(** A loop whose turns each keep an invariant, append a group and take some
    calls with one pause each. *)
Lemma foldM_spec {A S T} (I : S → Prop) (rows_of : S → list T) (Q : A → list T → Prop)
    (d : float) (low : nat) (exact : Prop) (f : S → A → M S) (l : list A) :
  (∀ s a w w' s', I s → f s a w = (w', Ok s') →
     I s' ∧ (∃ g, rows_of s' = rows_of s ++ g ∧ Q a g) ∧
     ∃ n, elapsed w w' n (replicate n d) ∧ low ≤ n ∧ (exact → n = low)) →
  ∀ s w w' s', I s → foldM f s l w = (w', Ok s') →
     I s' ∧ (∃ gs, rows_of s' = rows_of s ++ concat gs ∧ Forall2 Q l gs) ∧
     ∃ n, elapsed w w' n (replicate n d) ∧ low * length l ≤ n ∧
          (exact → n = low * length l).
Proof.
  intros Hf. induction l as [|a l IH]; intros s w w' s' Hs; cbn [foldM].
  - intros [= <- <-]. split; [done|]. split.
    + exists []. split; [by rewrite app_nil_r|constructor].
    + exists 0. split; [apply elapsed_refl|]. cbn. split; [lia|intros _; lia].
  - intros (w1 & s1 & H1 & H2)%bind_inv_ok.
    destruct (Hf _ _ _ _ _ Hs H1) as (Hs1 & (g & Eg & Hg) & (n & Hn & Hlo & Hex)).
    destruct (IH _ _ _ _ Hs1 H2) as (Hs' & (gs & Egs & Hgs) & (m & Hm & Hlo' & Hex')).
    split; [done|]. split.
    + exists (g :: gs). cbn [concat]. rewrite Egs, Eg, <- app_assoc.
      split; [done|by constructor].
    + exists (n + m). split.
      * rewrite replicate_add. by eapply elapsed_trans.
      * cbn [length]. split; [nia|]. intros He. rewrite (Hex He), (Hex' He). nia.
Qed.

Lemma main_spec countries manual_seed_keys w w' rows :
  main normalize_for_match client args countries manual_seed_keys w = (w', Ok rows) →
  (NoDup (seed_key normalize_for_match <$> rows) ∧
   ∀ r, r ∈ rows →
     seed_key normalize_for_match r ≠ [] ∧
     (args_dedupe_against_manual args = true →
      seed_key normalize_for_match r ∉ manual_seed_keys))
  ∧ (∃ groups : list (list (list SeedRow.t)),
       rows = concat ((λ gs, concat gs) <$> groups) ∧
       Forall2 (λ country gs,
                  Forall2 (λ cat g, Forall (tagged country cat.1) g) CATEGORIES gs)
               countries groups)
  ∧ ∃ n, elapsed w w' n (replicate n (args_sleep args)) ∧
         5 * length countries ≤ n ∧
         (args_verify args = false → n = 5 * length countries).
Proof.
  unfold main. set (manual_keys := if args_dedupe_against_manual args then _ else _).
  intros (w1 & st & Hloop & Hret)%bind_inv_ok. injection Hret as <- <-.
  assert (H0 : keys_ok manual_keys (∅, [])).
  { unfold Notions.keys_ok. cbn [fst snd fmap list_fmap].
    split; [constructor|]. split; by intros r ?%elem_of_nil. }
  assert (Hstep : ∀ s country w2 w3 s',
            keys_ok manual_keys s →
            foldM (seed_category normalize_for_match client args manual_keys country)
                  s CATEGORIES w2 = (w3, Ok s') →
            keys_ok manual_keys s'
            ∧ (∃ g, s'.2 = s.2 ++ g ∧
                 ∃ gs, g = concat gs ∧
                   Forall2 (λ cat g, Forall (tagged country cat.1) g) CATEGORIES gs)
            ∧ ∃ n, elapsed w2 w3 n (replicate n (args_sleep args)) ∧ 5 ≤ n ∧
                   (args_verify args = false → n = 5)).
  { intros s country w2 w3 s' Hs Hcountry.
    destruct (foldM_spec (keys_ok manual_keys) snd
                (λ cat g, Forall (tagged country cat.1) g)
                (args_sleep args) 1 (args_verify args = false)
                (seed_category normalize_for_match client args manual_keys country)
                CATEGORIES
                (λ s2 cat w4 w5 s3 Hs2 Hcat,
                   seed_category_spec manual_keys country s2 cat w4 w5 s3 Hs2 Hcat)
                s w2 w3 s' Hs Hcountry)
      as (Hs' & (gs & E & Hgs) & (n & Hn & Hlo & Hex)).
    split; [done|]. split.
    - exists (concat gs). split; [done|]. by exists gs.
    - assert (H5 : length CATEGORIES = 5) by reflexivity.
      rewrite H5 in Hlo, Hex. exists n. split; [done|]. split; [lia|].
      intros Hf. rewrite (Hex Hf). lia. }
  destruct (foldM_spec (keys_ok manual_keys) snd
              (λ country g, ∃ gs, g = concat gs ∧
                 Forall2 (λ cat g, Forall (tagged country cat.1) g) CATEGORIES gs)
              (args_sleep args) 5 (args_verify args = false) _ countries Hstep
              (∅, []) w w1 st H0 Hloop)
    as ((Hnd & _ & Hok) & (gss & E & Hgss) & Hn).
  split; [|split; [|done]].
  - split; [done|]. intros r Hr. destruct (Hok r Hr) as [Hne Hm]. split; [done|].
    intros Hflag. specialize (Hm Hflag). unfold manual_keys in Hm. by rewrite Hflag in Hm.
  - cbn [snd app] in E.
    assert (∃ groups : list (list (list SeedRow.t)),
              gss = (λ gs, concat gs) <$> groups ∧
              Forall2 (λ country gs,
                         Forall2 (λ cat g, Forall (tagged country cat.1) g) CATEGORIES gs)
                      countries groups) as (groups & -> & Hgroups).
    { clear - Hgss. induction Hgss as [|country g countries' gss' Hhead Htail IH].
      - by exists [].
      - destruct Hhead as (gs & -> & Hgs). destruct IH as (groups & -> & IH).
        exists (gs :: groups). split; [done|by constructor]. }
    by exists groups.
Qed.

End RunMore.

(** X14.  No institution is emitted twice: the normalized names of the rows
    [main] hands to [write_csv] are pairwise distinct, across all countries
    and categories; none of them is empty; and when deduplication against the
    manual list is on, none of them is a key of that list. *)
Theorem main_emits_distinct_keys (normalize_for_match : str → str)
    (client : nat → Seeds.request → result (option Seeds.json)) (args : Seeds.Args)
    (countries : list str) (manual_seed_keys : gset str) (w w' : World)
    (rows : list Seeds.SeedRow.t) :
  Seeds.main normalize_for_match client args countries manual_seed_keys w = (w', Ok rows) →
  NoDup ((λ r, normalize_for_match (Seeds.SeedRow.name r)) <$> rows)
  ∧ ∀ r, r ∈ rows →
      normalize_for_match (Seeds.SeedRow.name r) ≠ [] ∧
      (Seeds.args_dedupe_against_manual args = true →
       normalize_for_match (Seeds.SeedRow.name r) ∉ manual_seed_keys).
Proof. intros H. by destruct (main_spec _ _ _ _ _ _ _ _ H) as (Hk & _ & _). Qed.

Lemma main_emits_distinct_keys_witness :
  NoDup ((λ r, Text.normalize_for_match (U:=Text.ascii_block) (Seeds.SeedRow.name r)) <$>
         [Seeds.SeedRow.mk (py "United Kingdom") (py "Regulator") (py "Ofgem") [] []
            (py "HIGH") [] [] (py "chatgpt");
          Seeds.SeedRow.mk (py "United Kingdom") (py "Regulator") (py "Ofwat") [] []
            (py "LOW") [] [] (py "chatgpt")])
  ∧ ∀ r, r ∈ [Seeds.SeedRow.mk (py "United Kingdom") (py "Regulator") (py "Ofgem") [] []
                (py "HIGH") [] [] (py "chatgpt");
              Seeds.SeedRow.mk (py "United Kingdom") (py "Regulator") (py "Ofwat") [] []
                (py "LOW") [] [] (py "chatgpt")] →
      Text.normalize_for_match (U:=Text.ascii_block) (Seeds.SeedRow.name r) ≠ [] ∧
      (Seeds.args_dedupe_against_manual Samples.sample_args = true →
       Text.normalize_for_match (U:=Text.ascii_block) (Seeds.SeedRow.name r) ∉ (∅ : gset str)).
Proof.
  apply (main_emits_distinct_keys (Text.normalize_for_match (U:=Text.ascii_block))
           Samples.regulator_only Samples.sample_args [py "United Kingdom"] ∅ Samples.w0
           {| calls := 7; slept := [0.5; 0.5; 0.5; 0.5; 0.5; 0.5; 0.5]%float |}).
  vm_refl.
Defined.

(** X15.  Output order.  The rows [main] returns are grouped country by
    country in the order of the country list, and within a country category
    by category in the declared order of [CATEGORIES]; every row carries its
    country, its category key and the source "chatgpt". *)
Theorem main_rows_are_country_major (normalize_for_match : str → str)
    (client : nat → Seeds.request → result (option Seeds.json)) (args : Seeds.Args)
    (countries : list str) (manual_seed_keys : gset str) (w w' : World)
    (rows : list Seeds.SeedRow.t) :
  Seeds.main normalize_for_match client args countries manual_seed_keys w = (w', Ok rows) →
  ∃ groups : list (list (list Seeds.SeedRow.t)),
    rows = concat ((λ gs, concat gs) <$> groups) ∧
    Forall2 (λ country gs,
               Forall2 (λ cat g,
                          Forall (λ r, Seeds.SeedRow.country_label r = country ∧
                                       Seeds.SeedRow.category r = cat.1 ∧
                                       Seeds.SeedRow.source r = py "chatgpt") g)
                       Seeds.CATEGORIES gs)
            countries groups.
Proof. intros H. by destruct (main_spec _ _ _ _ _ _ _ _ H) as (_ & Hg & _). Qed.

Lemma main_rows_are_country_major_witness :
  ∃ groups : list (list (list Seeds.SeedRow.t)),
    [Seeds.SeedRow.mk (py "United Kingdom") (py "Regulator") (py "Ofgem") [] []
       (py "HIGH") [] [] (py "chatgpt");
     Seeds.SeedRow.mk (py "United Kingdom") (py "Regulator") (py "Ofwat") [] []
       (py "LOW") [] [] (py "chatgpt")]
    = concat ((λ gs, concat gs) <$> groups) ∧
    Forall2 (λ country gs,
               Forall2 (λ cat g,
                          Forall (λ r, Seeds.SeedRow.country_label r = country ∧
                                       Seeds.SeedRow.category r = cat.1 ∧
                                       Seeds.SeedRow.source r = py "chatgpt") g)
                       Seeds.CATEGORIES gs)
            [py "United Kingdom"] groups.
Proof.
  apply (main_rows_are_country_major (Text.normalize_for_match (U:=Text.ascii_block))
           Samples.regulator_only Samples.sample_args [py "United Kingdom"] ∅ Samples.w0
           {| calls := 7; slept := [0.5; 0.5; 0.5; 0.5; 0.5; 0.5; 0.5]%float |}).
  vm_refl.
Defined.

(** X16.  Pacing of [main].  When the run ends, every call to the client
    was followed by exactly one pause of [args.sleep] seconds and nothing else
    paused: with [n] calls made, the pauses are [n] times [args.sleep].  There
    are at least five calls per country, and exactly five when verification
    is off. *)
Theorem main_pacing (normalize_for_match : str → str)
    (client : nat → Seeds.request → result (option Seeds.json)) (args : Seeds.Args)
    (countries : list str) (manual_seed_keys : gset str) (w w' : World)
    (rows : list Seeds.SeedRow.t) :
  Seeds.main normalize_for_match client args countries manual_seed_keys w = (w', Ok rows) →
  ∃ n, calls w' = calls w + n ∧
       slept w' = slept w ++ replicate n (Seeds.args_sleep args) ∧
       5 * length countries ≤ n ∧
       (Seeds.args_verify args = false → n = 5 * length countries).
Proof.
  intros H. destruct (main_spec _ _ _ _ _ _ _ _ H) as (_ & _ & n & [Hc Hs] & Hlo & Hex).
  by exists n.
Qed.

Lemma main_pacing_witness :
  ∃ n, 7 = 0 + n ∧
       [0.5; 0.5; 0.5; 0.5; 0.5; 0.5; 0.5]%float = [] ++ replicate n 0.5%float ∧
       5 * 1 ≤ n ∧
       (true = false → n = 5 * 1).
Proof.
  apply (main_pacing (Text.normalize_for_match (U:=Text.ascii_block))
           Samples.regulator_only Samples.sample_args [py "United Kingdom"] ∅ Samples.w0
           {| calls := 7; slept := [0.5; 0.5; 0.5; 0.5; 0.5; 0.5; 0.5]%float |}
           [Seeds.SeedRow.mk (py "United Kingdom") (py "Regulator") (py "Ofgem") [] []
              (py "HIGH") [] [] (py "chatgpt");
            Seeds.SeedRow.mk (py "United Kingdom") (py "Regulator") (py "Ofwat") [] []
              (py "LOW") [] [] (py "chatgpt")]).
  vm_refl.
Defined.

(** ** The two input loaders *)

Section LoaderFacts.
Import Text SeedsIO.

Lemma country_labels_elem rows c :
  c ∈ country_labels rows ↔
  c ≠ [] ∧ ∃ row, row ∈ rows ∧ strip (get_or_empty row "country_label") = c.
Proof.
  induction rows as [|row rows IH]; cbn [country_labels].
  - split; [by intros ?%elem_of_nil | by intros (_ & row & ?%elem_of_nil & _)].
  - case_decide as Hc.
    + rewrite IH. split; intros (Hne & r & Hr & <-).
      * split; [done|]. exists r. split; [by right|done].
      * split; [done|]. apply elem_of_cons in Hr as [->|Hr]; [done|]. by exists r.
    + rewrite elem_of_cons, IH. split.
      * intros [->|(Hne & r & Hr & <-)].
        -- split; [done|]. exists row. split; [by left|done].
        -- split; [done|]. exists r. split; [by right|done].
      * intros (Hne & r & Hr & <-).
        apply elem_of_cons in Hr as [->|Hr]; [by left|right].
        split; [done|by exists r].
Qed.

Lemma stable_unique_elem countries : ∀ seen c,
  c ∈ stable_unique seen countries ↔ c ∈ countries ∧ c ∉ seen.
Proof.
  induction countries as [|c0 countries IH]; intros seen c; cbn [stable_unique].
  - split; [by intros ?%elem_of_nil | by intros [?%elem_of_nil _]].
  - case_decide as Hc0.
    + rewrite IH, elem_of_cons. split; [intros [??]; by split; [right|]|].
      intros [[->|?] ?]; [done|by split].
    + rewrite !elem_of_cons, IH, not_elem_of_union, not_elem_of_singleton.
      split.
      * intros [->|(? & ? & ?)]; [by split; [left|] | by split; [right|]].
      * intros [[->|?] ?]; [by left|].
        destruct (decide (c = c0)) as [->|]; [by left|by right].
Qed.

Lemma stable_unique_NoDup countries : ∀ seen, NoDup (stable_unique seen countries).
Proof.
  induction countries as [|c0 countries IH]; intros seen; cbn [stable_unique].
  - constructor.
  - case_decide; [apply IH|]. constructor; [|apply IH].
    rewrite stable_unique_elem, not_elem_of_union, not_elem_of_singleton.
    by intros (_ & ? & _).
Qed.

Lemma stable_unique_sublist countries : ∀ seen,
  sublist (stable_unique seen countries) countries.
Proof.
  induction countries as [|c0 countries IH]; intros seen; cbn [stable_unique].
  - constructor.
  - case_decide; [by apply sublist_cons | by apply sublist_skip].
Qed.

(** The second loop keeps the first occurrence of every label. *)
Lemma stable_unique_first pre : ∀ seen c post,
  c ∉ pre → c ∉ seen →
  ∃ rest, stable_unique seen (pre ++ c :: post) = stable_unique seen pre ++ c :: rest
          ∧ sublist rest post ∧ c ∉ rest.
Proof.
  induction pre as [|p pre IH]; intros seen c post Hpre Hseen; cbn [app stable_unique].
  - rewrite decide_False by done. eexists. split; [done|].
    split; [apply stable_unique_sublist|].
    rewrite stable_unique_elem, not_elem_of_union, not_elem_of_singleton.
    by intros (_ & ? & _).
  - apply not_elem_of_cons in Hpre as [Hne Hpre]. case_decide as Hp.
    + by apply IH.
    + destruct (IH ({[p]} ∪ seen) c post Hpre) as (rest & -> & ? & ?).
      { by rewrite not_elem_of_union, not_elem_of_singleton. }
      by exists rest.
Qed.

Context (normalize_for_match : str → str).

Lemma manual_keys_of_elem rows k :
  k ∈ manual_keys_of normalize_for_match rows ↔
  ∃ row, row ∈ rows ∧ strip (get_or_empty row "name") ≠ [] ∧
         k = normalize_for_match (strip (get_or_empty row "name")).
Proof.
  induction rows as [|row rows IH]; cbn [manual_keys_of].
  - split; [by intros ?%not_elem_of_empty | by intros (row & ?%elem_of_nil & _)].
  - case_decide as Hnm.
    + rewrite IH. split; intros (r & Hr & Hne & ->).
      * exists r. by split; [right|].
      * apply elem_of_cons in Hr as [->|Hr]; [done|]. by exists r.
    + rewrite elem_of_union, elem_of_singleton, IH. split.
      * intros [->|(r & Hr & Hne & ->)]; [exists row; by split; [left|] |].
        exists r. by split; [right|].
      * intros (r & Hr & Hne & ->).
        apply elem_of_cons in Hr as [->|Hr]; [by left|right]. by exists r.
Qed.

End LoaderFacts.

(** X17.  [load_ggc_countries] raises ValueError exactly when the header
    lacks the column country_label (also for an empty file).  Otherwise it
    returns the distinct trimmed non-empty labels of the file: no label twice,
    every returned label trimmed and not empty, a label returned exactly when
    some row carries it, and in the order of the rows. *)
Theorem load_ggc_countries_spec (path : str) (f : SeedsIO.csv_file) :
  match SeedsIO.load_ggc_countries path f with
  | Ok out =>
      "country_label" ∈ default [] (SeedsIO.fieldnames f) ∧
      NoDup out ∧
      (∀ c, c ∈ out ↔
            c ≠ [] ∧ ∃ row, row ∈ SeedsIO.csv_rows f ∧
                            Text.strip (Text.get_or_empty row "country_label") = c) ∧
      (∀ c, c ∈ out → Text.strip c = c) ∧
      sublist out ((λ row, Text.strip (Text.get_or_empty row "country_label"))
                     <$> SeedsIO.csv_rows f)
  | Raise e =>
      ("country_label" ∉ default [] (SeedsIO.fieldnames f)) ∧
      e = ValueError (py "Expected column 'country_label' in " ++ path)
  end.
Proof.
  unfold SeedsIO.load_ggc_countries. case_decide as Hcol; [|done].
  split; [done|]. split; [apply stable_unique_NoDup|].
  assert (Hel : ∀ c, c ∈ SeedsIO.stable_unique ∅ (SeedsIO.country_labels (SeedsIO.csv_rows f)) ↔
            c ≠ [] ∧ ∃ row, row ∈ SeedsIO.csv_rows f ∧
                            Text.strip (Text.get_or_empty row "country_label") = c).
  { intros c. rewrite stable_unique_elem, country_labels_elem.
    split; [by intros [? _]|]. intros ?. split; [done|]. apply not_elem_of_empty. }
  split; [exact Hel|]. split.
  - intros c (_ & row & _ & <-)%Hel. apply strip_idemp.
  - etrans; [apply stable_unique_sublist|].
    generalize (SeedsIO.csv_rows f). intros rows.
    induction rows as [|row rows IH]; cbn [SeedsIO.country_labels fmap list_fmap].
    + constructor.
    + case_decide; [by apply sublist_cons | by apply sublist_skip].
Qed.

(** X18.  In [load_ggc_countries] the position of a label in the result
    is that of its first occurrence: when the trimmed non-empty labels of the
    file are [pre ++ c :: post] and [c] is not in [pre], the result is the
    result for [pre], then [c], then labels of [post]. *)
Theorem load_ggc_countries_keeps_first_occurrence (path : str) (f : SeedsIO.csv_file)
    (pre post : list str) (c : str) :
  "country_label" ∈ default [] (SeedsIO.fieldnames f) →
  SeedsIO.country_labels (SeedsIO.csv_rows f) = pre ++ c :: post →
  c ∉ pre →
  ∃ rest, SeedsIO.load_ggc_countries path f = Ok (SeedsIO.stable_unique ∅ pre ++ c :: rest)
          ∧ sublist rest post ∧ c ∉ rest.
Proof.
  intros Hcol Heq Hpre. unfold SeedsIO.load_ggc_countries.
  rewrite decide_True by done. rewrite Heq.
  destruct (stable_unique_first pre ∅ c post Hpre) as (rest & -> & ? & ?);
    [apply not_elem_of_empty|].
  by exists rest.
Qed.

Lemma load_ggc_countries_keeps_first_occurrence_witness :
  ∃ rest, SeedsIO.load_ggc_countries (py "data/ggc.csv") Samples.country_file
          = Ok (SeedsIO.stable_unique ∅ [py "Kenya"] ++ py "Peru" :: rest)
          ∧ sublist rest [py "Kenya"] ∧ py "Peru" ∉ rest.
Proof.
  apply (load_ggc_countries_keeps_first_occurrence (py "data/ggc.csv") Samples.country_file
           [py "Kenya"] [py "Kenya"] (py "Peru")).
  - apply (bool_decide_unpack _). by vm_compute.
  - vm_refl.
  - apply (bool_decide_unpack _). by vm_compute.
Defined.

(** X19.  [load_manual_seed_keys] returns the empty set for a path that
    does not exist, raises ValueError exactly when the file exists and its
    header lacks the column name, and otherwise returns exactly the normalized
    forms of the trimmed non-empty names of the file. *)
Theorem load_manual_seed_keys_spec (normalize_for_match : str → str) (path : str)
    (file : option SeedsIO.csv_file) :
  match SeedsIO.load_manual_seed_keys normalize_for_match path file with
  | Ok keys =>
      (∀ f, file = Some f → "name" ∈ default [] (SeedsIO.fieldnames f)) ∧
      (file = None → keys = ∅) ∧
      ∀ k, k ∈ keys ↔
           ∃ f row, file = Some f ∧ row ∈ SeedsIO.csv_rows f ∧
                    Text.strip (Text.get_or_empty row "name") ≠ [] ∧
                    k = normalize_for_match (Text.strip (Text.get_or_empty row "name"))
  | Raise e =>
      (∃ f, file = Some f ∧ "name" ∉ default [] (SeedsIO.fieldnames f)) ∧
      e = ValueError (py "Expected column 'name' in " ++ path)
  end.
Proof.
  unfold SeedsIO.load_manual_seed_keys. destruct file as [f|].
  - case_decide as Hcol.
    + split; [by intros ? [= <-]|]. split; [done|].
      intros k. rewrite manual_keys_of_elem. split.
      * intros (row & ? & ? & ?). by exists f, row.
      * intros (f' & row & [= <-] & ? & ? & ?). by exists row.
    + split; [by exists f|done].
  - split; [done|]. split; [done|].
    intros k. split; [by intros ?%not_elem_of_empty | by intros (? & ? & ? & _)].
Qed.

(** X20.  The loader and the main loop together: with deduplication
    against the manual list on, and the keys loaded from the manual file, no
    row [main] emits has the normalized name of a named row of that file. *)
Theorem manual_seeds_are_not_emitted (normalize_for_match : str → str)
    (client : nat → Seeds.request → result (option Seeds.json)) (args : Seeds.Args)
    (countries : list str) (path : str) (f : SeedsIO.csv_file) (keys : gset str)
    (w w' : World) (rows : list Seeds.SeedRow.t) :
  Seeds.args_dedupe_against_manual args = true →
  SeedsIO.load_manual_seed_keys normalize_for_match path (Some f) = Ok keys →
  Seeds.main normalize_for_match client args countries keys w = (w', Ok rows) →
  ∀ r row, r ∈ rows → row ∈ SeedsIO.csv_rows f →
    Text.strip (Text.get_or_empty row "name") ≠ [] →
    normalize_for_match (Seeds.SeedRow.name r)
    ≠ normalize_for_match (Text.strip (Text.get_or_empty row "name")).
Proof.
  intros Hflag Hload Hmain r row Hr Hrow Hne Heq.
  destruct (main_spec _ _ _ _ _ _ _ _ Hmain) as ((_ & Hk) & _ & _).
  destruct (Hk r Hr) as [_ Hnot]. apply (Hnot Hflag).
  unfold SeedsIO.load_manual_seed_keys in Hload. case_decide; [|done].
  injection Hload as <-. unfold Notions.seed_key. rewrite Heq.
  apply manual_keys_of_elem. by exists row.
Qed.

Lemma manual_seeds_are_not_emitted_witness :
  Seeds.args_dedupe_against_manual Samples.dedupe_args = true
  ∧ Text.normalize_for_match (U:=Text.ascii_block) (py "Ofwat")
    ≠ Text.normalize_for_match (U:=Text.ascii_block)
        (Text.strip (Text.get_or_empty
           ({[ "name" := Some (py " OFGEM ") ; "country" := Some (py "United Kingdom") ]}
              : gmap string (option str)) "name")).
Proof.
  split; [reflexivity|].
  refine (manual_seeds_are_not_emitted (Text.normalize_for_match (U:=Text.ascii_block))
           Samples.regulator_only Samples.dedupe_args [py "United Kingdom"]
           (py "data/manual.csv") Samples.manual_file
           {[ py "ofgem"; py "kenya power" ]} Samples.w0
           {| calls := 5; slept := [0.5; 0.5; 0.5; 0.5; 0.5]%float |}
           [Seeds.SeedRow.mk (py "United Kingdom") (py "Regulator") (py "Ofwat") [] []
              (py "LOW") [] [] (py "chatgpt")]
           _ _ _
           (Seeds.SeedRow.mk (py "United Kingdom") (py "Regulator") (py "Ofwat") [] []
              (py "LOW") [] [] (py "chatgpt"))
           {[ "name" := Some (py " OFGEM ") ; "country" := Some (py "United Kingdom") ]}
           _ _ _).
  - reflexivity.
  - vm_refl.
  - vm_refl.
  - constructor.
  - constructor.
  - by vm_compute.
Defined.

(** ** Category tests and response schema *)

(** X21.  [_category_tests_block] has a test for exactly the five declared
    categories: for a key of [CATEGORIES] the block is a single line that
    starts with "- <key> test: " and ends with its only newline; for every
    other key it is the empty string. *)
Theorem category_tests_cover_declared_categories (category_key : str) :
  (category_key ∈ Seeds.CATEGORIES.*1 →
   ∃ body, SeedsIO._category_tests_block category_key
           = py "- " ++ category_key ++ py " test: " ++ body ++ SeedsIO.nl
           ∧ 0x0A%N ∉ body)
  ∧ (category_key ∉ Seeds.CATEGORIES.*1 → SeedsIO._category_tests_block category_key = []).
Proof.
  split.
  - intros Hin.
    assert (Hcases : category_key ∈ [py "TSO"; py "Regulator"; py "Ministry";
                                     py "RenewablesAgency"; py "NuclearAgency"]) by exact Hin.
    clear Hin.
    repeat (apply elem_of_cons in Hcases as [->|Hcases]);
      [| | | | |by apply elem_of_nil in Hcases];
      match goal with
      | |- ∃ body, ?blk = ?pre ++ ?key ++ ?mid ++ body ++ _ ∧ _ =>
          exists (take (length blk - length (pre ++ key ++ mid) - 1)
                    (drop (length (pre ++ key ++ mid)) blk))
      end;
      (split; [vm_refl | apply (bool_decide_unpack _); by vm_compute]).
  - intros Hnot. unfold SeedsIO._category_tests_block.
    repeat (rewrite decide_False;
            [|intros ->; apply Hnot; apply (bool_decide_unpack _); by vm_compute]).
    done.
Qed.

(** X22.  The response format sent with every request.  For every
    [max_items], formatting [_json_schema(max_items)] succeeds and gives
    exactly the keys type, name and schema (the flag strict is not passed
    on); the array bound is [max_items]; and the fields every item must have
    are all the declared item properties, which are the six fields
    [_safe_parse_items] reads. *)
Theorem response_format_of_schema (max_items : Z) :
  ∃ fmt props,
    SeedsIO._format_json_schema_for_responses (SeedsIO._json_schema max_items) = Some fmt
    ∧ fmt.*1 = ["type"; "name"; "schema"]
    ∧ SeedsIO.at_path (Seeds.JObj fmt) ["schema"; "properties"; "items"; "maxItems"]
      = Some (Seeds.JInt max_items)
    ∧ SeedsIO.at_path (Seeds.JObj fmt) ["schema"; "properties"; "items"; "items"; "properties"]
      = Some (Seeds.JObj props)
    ∧ props.*1 = Seeds.item_keys
    ∧ SeedsIO.at_path (Seeds.JObj fmt) ["schema"; "properties"; "items"; "items"; "required"]
      = Some (Seeds.JArr ((λ k, Seeds.JStr (py k)) <$> props.*1)).
Proof.
  eexists _, SeedsIO.item_properties. split; [reflexivity|].
  split; [reflexivity|]. split; [reflexivity|]. split; [reflexivity|].
  split; reflexivity.
Qed.

(** ** The repository root *)

Section PathFacts.
Import Paths.

Lemma parents_upto_lookup p n i :
  parents_upto p n !! i = if decide (i < n) then Some (take (n - S i) p) else None.
Proof.
  revert i. induction n as [|n IH]; intros i; cbn [parents_upto].
  - by case_decide; [lia|].
  - destruct i as [|i]; cbn [lookup list_lookup].
    + rewrite decide_True by lia. do 2 f_equal. lia.
    + change (parents_upto p n !! i
              = if decide (S i < S n) then Some (take (S n - S (S i)) p) else None).
      rewrite IH. repeat case_decide; try lia; done.
Qed.

(** The search list of [project_root]: [p] and its ancestors. *)
Lemma chain_upto p : p :: parents p = parents_upto p (S (length p)).
Proof. unfold parents. cbn [parents_upto]. by rewrite firstn_all. Qed.

(** In the search list, what comes before the first match does not match
    and is longer than the match. *)
Lemma find_parents_upto (f : path → bool) p n r :
  List.find f (parents_upto p n) = Some r →
  ∃ k, k < n ∧ r = take k p ∧ f r = true ∧ ∀ j, k < j < n → f (take j p) = false.
Proof.
  induction n as [|n IH]; cbn [parents_upto List.find]; [done|].
  destruct (f (take n p)) eqn:Hf.
  - intros [= <-]. exists n. split; [lia|]. split; [done|]. split; [done|]. lia.
  - intros (k & Hk & -> & Hr & Hlt)%IH.
    exists k. split; [lia|]. split; [done|]. split; [done|].
    intros j Hj. destruct (decide (j = n)) as [->|]; [done|]. apply Hlt. lia.
Qed.

Lemma find_parents_upto_none (f : path → bool) p n :
  List.find f (parents_upto p n) = None → ∀ j, j < n → f (take j p) = false.
Proof.
  induction n as [|n IH]; cbn [parents_upto List.find]; [lia|].
  destruct (f (take n p)) eqn:Hf; [done|].
  intros Hnone j Hj. destruct (decide (j = n)) as [->|]; [done|]. apply IH; [done|lia].
Qed.

Lemma prefix_is_take (q p : path) :
  q `prefix_of` p → q = take (length q) p ∧ length q ≤ length p.
Proof.
  intros [t ->]. rewrite take_app_length, length_app. split; [done|lia].
Qed.

End PathFacts.

(** X23.  [project_root] returns the nearest marked directory: when some
    directory among the resolved start path and its ancestors has both a src
    and a data entry, the result is the deepest such directory.  Only when
    none has both is the fallback used, the third ancestor of the module's
    own resolved path, which is an IndexError when that path has fewer than
    three components. *)
Theorem project_root_is_nearest (resolve : Paths.path → Paths.path)
    (exists_ : Paths.path → bool) (file : Paths.path) (start : option Paths.path) :
  match Paths.project_root resolve exists_ file start with
  | Some r =>
      (r `prefix_of` resolve (default file start) ∧
       Paths.has_markers exists_ r = true ∧
       ∀ q, q `prefix_of` resolve (default file start) → length r < length q →
            Paths.has_markers exists_ q = false)
      ∨ ((∀ q, q `prefix_of` resolve (default file start) →
               Paths.has_markers exists_ q = false) ∧
         3 ≤ length (resolve file) ∧
         r = take (length (resolve file) - 3) (resolve file))
  | None =>
      (∀ q, q `prefix_of` resolve (default file start) →
            Paths.has_markers exists_ q = false) ∧
      length (resolve file) < 3
  end.
Proof.
  unfold Paths.project_root. cbv zeta.
  set (p := resolve (default file start)).
  rewrite chain_upto.
  destruct (List.find _ _) as [r|] eqn:Hfind.
  - left. apply find_parents_upto in Hfind as (k & Hk & -> & Hr & Hlt).
    split; [apply prefix_take|]. split; [done|].
    intros q [Hq Hle]%prefix_is_take Hlen. rewrite Hq. apply Hlt.
    rewrite length_take in Hlen. lia.
  - assert (Hnone : ∀ q, q `prefix_of` p → Paths.has_markers exists_ q = false).
    { intros q [Hq Hle]%prefix_is_take. rewrite Hq.
      apply (find_parents_upto_none _ _ _ Hfind). lia. }
    unfold Paths.parents. rewrite parents_upto_lookup. case_decide.
    + right. split; [done|]. split; [lia|done].
    + split; [done|lia].
Qed.

(** ** The script filter-upbeat.py *)

(** X24.  Whatever order the set of rows is iterated in, filter-upbeat.py
    writes the header first and then every distinct data row exactly once:
    no row twice, a row is written exactly when the input has it, and a data
    row equal to the header is kept.  An input without a header stops the
    script before anything is written. *)
Theorem unique_utilities_spec (iter : gset (list str) → list (list str))
    (reader : list (list str)) :
  (∀ X, NoDup (iter X) ∧ ∀ x, x ∈ iter X ↔ x ∈ X) →
  match Upbeat.unique_utilities iter reader with
  | Some out =>
      ∃ header rows body,
        reader = header :: rows ∧ out = header :: body ∧
        NoDup body ∧ (∀ x, x ∈ body ↔ x ∈ rows) ∧ length body ≤ length rows
  | None => reader = []
  end.
Proof.
  intros Hiter. destruct reader as [|header rows]; [done|]. cbn [Upbeat.unique_utilities].
  destruct (Hiter (list_to_set rows)) as [Hnd Hel].
  assert (Hin : ∀ x, x ∈ iter (list_to_set rows) ↔ x ∈ rows).
  { intros x. by rewrite Hel, elem_of_list_to_set. }
  exists header, rows, (iter (list_to_set rows)).
  split; [done|]. split; [done|]. split; [done|]. split; [done|].
  apply submseteq_length, NoDup_submseteq; [done|]. intros x. apply Hin.
Qed.

Lemma unique_utilities_spec_witness :
  match Upbeat.unique_utilities elements
          [[py "name"; py "country"]; [py "Kenya Power"; py "Kenya"];
           [py "name"; py "country"]; [py "Kenya Power"; py "Kenya"]] with
  | Some out =>
      ∃ header rows body,
        [[py "name"; py "country"]; [py "Kenya Power"; py "Kenya"];
         [py "name"; py "country"]; [py "Kenya Power"; py "Kenya"]] = header :: rows ∧
        out = header :: body ∧
        NoDup body ∧ (∀ x, x ∈ body ↔ x ∈ rows) ∧ length body ≤ length rows
  | None =>
      [[py "name"; py "country"]; [py "Kenya Power"; py "Kenya"];
       [py "name"; py "country"]; [py "Kenya Power"; py "Kenya"]] = []
  end.
Proof.
  apply (unique_utilities_spec elements).
  intros X. split; [apply NoDup_elements | intros x; apply elem_of_elements].
Defined.
